(** * RSVP admission control of the event-management backend

    A shallow embedding of the Express/Mongoose handlers that decide who
    attends an event:

    - [models/Event.js] and [models/RSVP.js]: the two collections, their
      schema validators and the compound unique index on (event, user);
    - [controllers/rsvpController.js]: [createRsvp] (join), [cancelRsvp]
      (leave), [getRsvpStatus] and [getMyRsvps];
    - [controllers/eventController.js]: [createEvent], [updateEvent],
      [deleteEvent], [getEvent], [getMyEvents] and [getEventAttendees].

    Handlers are written in a state-and-exception monad over a database
    connection.  A connection holds the committed collections and, while a
    MongoDB transaction is open, the working copy that the calls carrying
    [{ session }] read and write; [commitTransaction] publishes the copy and
    [abortTransaction] drops it.

    Each handler is given twice.  The first form runs a request from its
    arrival to its answer with no other request in between ([handle],
    [reachable]).  The second form, in [Module Async], is the same handler
    cut at its storage calls, so that the calls of several requests can be
    interleaved ([Async.exec], [Async.overlapping]); served alone, it is
    the first form ([serve_handle]).

    What the model takes from outside the handlers:
    - numbers are integers ([Z]), dates are milliseconds since the epoch,
      strings are ASCII strings;
    - the verdict of the express-validator rules of [routes/events.js] is an
      input of [createEvent] and [updateEvent];
    - Mongoose runs the [trim] setters and the schema validators on
      [create] and, with [runValidators], on the paths of a [$set]; [save]
      of a document that is no longer stored throws; a unique index
      refuses an insert with error code 11000;
    - the driver draws the [_id] of a new document from a counter;
    - a storage call may throw ([FaultPlan]); the calls that manage the
      session itself do not;
    - [req.user] is an input of the handlers, and the [User] collection,
      which the handlers only read through [populate], is an input of the
      read-only ones;
    - [.sort(...)] keeps the stored order of the documents that compare
      equal. *)

From Stdlib Require Import ZArith Lia Ascii String.
From Stdlib Require Import Sorted.
From stdpp Require Import base option list gmap strings pretty.

Local Open Scope Z_scope.

(** ** JavaScript errors and request parameters *)

(** The part of a thrown error the handlers look at: [error.name] and
    [error.code]. *)
Record JsError := { name : string; code : option Z }.

Definition CastError : JsError := {| name := "CastError"; code := None |}.
Definition ValidationError : JsError :=
  {| name := "ValidationError"; code := None |}.
Definition DocumentNotFoundError : JsError :=
  {| name := "DocumentNotFoundError"; code := None |}.
(** E11000, the duplicate key error of a unique index. *)
Definition DuplicateKeyError : JsError :=
  {| name := "MongoServerError"; code := Some 11000 |}.

(** [innerError.code === 11000] *)
Definition isDuplicateKey (e : JsError) : bool :=
  match code e with Some c => c =? 11000 | None => false end.

(** [error.name === 'CastError'] *)
Definition isCastError (e : JsError) : bool :=
  bool_decide (name e = "CastError").

(** A route parameter [:eventId] / [:id]: either a string that is not an
    ObjectId, which [mongoose.Types.ObjectId.isValid] refuses and on which
    [findById] throws a [CastError], or a well-formed ObjectId. *)
Inductive IdParam :=
  | Malformed
  | WellFormed (id : nat).

Abbreviation Result := (sum JsError).

(** ** Strings: [String.prototype.trim], used by the [trim: true] setters *)

Definition isWhiteSpace (a : ascii) : bool :=
  let n := nat_of_ascii a in
  (Nat.eqb n 32 || (Nat.leb 9 n && Nat.leb n 13))%bool.

Fixpoint trimStart (s : string) : string :=
  match s with
  | EmptyString => EmptyString
  | String a s' => if isWhiteSpace a then trimStart s' else s
  end.

Definition trim (s : string) : string :=
  String.rev (trimStart (String.rev (trimStart s))).

Definition strlen (s : string) : Z := Z.of_nat (String.length s).

(** ** models/RSVP.js *)

Inductive Status := confirmed | cancelled | waitlist.

#[global] Instance Status_eq_dec : EqDecision Status.
Proof. solve_decision. Defined.

Module RSVP.

Record doc := mk {
  _id : nat;
  event : nat;
  user : nat;
  status : Status;
  createdAt : Z;
  updatedAt : Z
}.

(** The filter [{ event, user, status }]. *)
Definition matches (eventId userId : nat) (st : Status) (r : doc) : bool :=
  (Nat.eqb (event r) eventId && Nat.eqb (user r) userId
   && bool_decide (status r = st))%bool.

(** The key of the index [{ event: 1, user: 1 }, { unique: true }]. *)
Definition key (r : doc) : nat * nat := (event r, user r).

Definition sameKey (eventId userId : nat) (r : doc) : bool :=
  (Nat.eqb (event r) eventId && Nat.eqb (user r) userId)%bool.

(** [RSVP.findOne({ event, user, status })] *)
Definition findOne (eventId userId : nat) (st : Status) (c : list doc)
  : option doc :=
  List.find (matches eventId userId st) c.

(** [RSVP.create([{ event, user, status }])]: the insert is refused with
    E11000 when it would break the primary key or the unique index;
    [createdAt] and [updatedAt] take their defaults ([Date.now]). *)
Definition create (now : Z) (oid eventId userId : nat) (st : Status)
    (c : list doc) : Result (doc * list doc) :=
  if existsb (fun r => (Nat.eqb (_id r) oid || sameKey eventId userId r)%bool) c
  then inl DuplicateKeyError
  else
    let r := mk oid eventId userId st now now in
    inr (r, c ++ [r]).

(** Writes the modified paths of an in-memory document ([status] and
    [updatedAt]) to the stored document with the same [_id]. *)
Definition store (r : doc) (x : doc) : doc :=
  if Nat.eqb (_id x) (_id r)
  then mk (_id x) (event x) (user x) (status r) (createdAt x) (updatedAt r)
  else x.

(** [doc.save()]: the pre-save hook stamps [updatedAt]; saving a document
    that is no longer stored throws. *)
Definition save (now : Z) (r : doc) (c : list doc) : Result (doc * list doc) :=
  let r' := mk (_id r) (event r) (user r) (status r) (createdAt r) now in
  if existsb (fun x => Nat.eqb (_id x) (_id r)) c
  then inr (r', map (store r') c)
  else inl DocumentNotFoundError.

(** [RSVP.deleteMany({ event })] *)
Definition deleteMany (eventId : nat) (c : list doc) : list doc :=
  List.filter (fun r => negb (Nat.eqb (event r) eventId)) c.

End RSVP.

(** ** models/Event.js *)

Module Event.

Record doc := mk {
  _id : nat;
  title : string;
  description : string;
  date : Z;
  location : string;
  capacity : Z;
  attendeeCount : Z;
  imageUrl : option string;
  creator : nat;
  createdAt : Z;
  updatedAt : Z
}.

(** The object handed to [Event.create]; [None] is [undefined]. *)
Record fields := {
  new_title : option string;
  new_description : option string;
  new_date : option Z;
  new_location : option string;
  new_capacity : option Z;
  new_imageUrl : option string;
  new_creator : nat;
  new_attendeeCount : Z
}.

(** The [$set] document of an update; [None] leaves the path alone. *)
Record patch := {
  set_title : option string;
  set_description : option string;
  set_date : option Z;
  set_location : option string;
  set_capacity : option Z;
  set_imageUrl : option (option string)
}.

(** Schema validators, per path. *)
Definition validTitle (s : string) : bool :=
  (negb (bool_decide (s = "")) && (strlen s <=? 100))%bool.
Definition validDescription (s : string) : bool :=
  (negb (bool_decide (s = "")) && (strlen s <=? 2000))%bool.
Definition validLocation (s : string) : bool :=
  (negb (bool_decide (s = "")) && (strlen s <=? 200))%bool.
Definition validCapacity (n : Z) : bool :=
  ((1 <=? n) && (n <=? 100000))%bool.
Definition validAttendeeCount (n : Z) : bool := 0 <=? n.

Definition findById (p : IdParam) (c : gmap nat doc) : Result (option doc) :=
  match p with
  | Malformed => inl CastError
  | WellFormed id => inr (c !! id)
  end.

(** [Event.create]: setters, then validation, then the insert. *)
Definition create (now : Z) (oid : nat) (f : fields) (c : gmap nat doc)
  : Result (doc * gmap nat doc) :=
  match new_title f, new_description f, new_date f, new_location f,
        new_capacity f with
  | Some t, Some d, Some dt, Some l, Some cap =>
      let e := mk oid (trim t) d dt (trim l) cap (new_attendeeCount f)
                  (trim <$> new_imageUrl f) (new_creator f) now now in
      if (validTitle (title e) && validDescription d
          && validLocation (location e) && validCapacity cap
          && validAttendeeCount (attendeeCount e))%bool
      then
        match c !! oid with
        | Some _ => inl DuplicateKeyError
        | None => inr (e, <[oid := e]> c)
        end
      else inl ValidationError
  | _, _, _, _, _ => inl ValidationError
  end.

(** [$inc: { attendeeCount: n }] *)
Definition inc (n : Z) (e : doc) : doc :=
  mk (_id e) (title e) (description e) (date e) (location e) (capacity e)
     (attendeeCount e + n) (imageUrl e) (creator e) (createdAt e)
     (updatedAt e).

(** [Event.findOneAndUpdate({ _id, <cond> }, <update>, { new: true })]:
    one conditional update of one document; returns the updated document,
    or [null] when no document matches. *)
Definition findOneAndUpdate (id : nat) (cond : doc -> bool)
    (update : doc -> doc) (c : gmap nat doc)
  : option doc * gmap nat doc :=
  match c !! id with
  | Some e =>
      if cond e then (Some (update e), <[id := update e]> c) else (None, c)
  | None => (None, c)
  end.

(** The setters of the paths of a [$set] document. *)
Definition cast (p : patch) : patch :=
  {| set_title := trim <$> set_title p;
     set_description := set_description p;
     set_date := set_date p;
     set_location := trim <$> set_location p;
     set_capacity := set_capacity p;
     set_imageUrl := fmap (M:=option) trim <$> set_imageUrl p |}.

(** [runValidators: true]: the validators of the paths that are set. *)
Definition validPatch (p : patch) : bool :=
  (from_option validTitle true (set_title p)
   && from_option validDescription true (set_description p)
   && from_option validLocation true (set_location p)
   && from_option validCapacity true (set_capacity p))%bool.

Definition apply (p : patch) (e : doc) : doc :=
  mk (_id e)
     (default (title e) (set_title p))
     (default (description e) (set_description p))
     (default (date e) (set_date p))
     (default (location e) (set_location p))
     (default (capacity e) (set_capacity p))
     (attendeeCount e)
     (default (imageUrl e) (set_imageUrl p))
     (creator e) (createdAt e) (updatedAt e).

(** [Event.findByIdAndUpdate(id, { $set }, { new: true, runValidators: true })] *)
Definition findByIdAndUpdate (p : IdParam) (upd : patch) (c : gmap nat doc)
  : Result (option doc * gmap nat doc) :=
  match p with
  | Malformed => inl CastError
  | WellFormed id =>
      let upd := cast upd in
      if validPatch upd then
        match c !! id with
        | Some e => inr (Some (apply upd e), <[id := apply upd e]> c)
        | None => inr (None, c)
        end
      else inl ValidationError
  end.

(** [Event.findByIdAndDelete] *)
Definition findByIdAndDelete (p : IdParam) (c : gmap nat doc)
  : Result (gmap nat doc) :=
  match p with
  | Malformed => inl CastError
  | WellFormed id => inr (delete id c)
  end.

End Event.

(** ** The database, sessions and the handler monad *)

(** The two collections, and the counter from which the driver draws the
    [_id] of a new document. *)
Record Store := {
  events : gmap nat Event.doc;
  rsvps : list RSVP.doc;
  nextOid : nat
}.

Definition emptyStore : Store := {| events := ∅; rsvps := []; nextOid := 0 |}.

Definition setEvents (c : gmap nat Event.doc) (s : Store) : Store :=
  {| events := c; rsvps := rsvps s; nextOid := nextOid s |}.

Definition setRsvps (c : list RSVP.doc) (s : Store) : Store :=
  {| events := events s; rsvps := c; nextOid := nextOid s |}.

Definition bumpOid (s : Store) : Store :=
  {| events := events s; rsvps := rsvps s; nextOid := S (nextOid s) |}.

(** A connection with one session: [txn] is the working copy of the open
    transaction, if any. *)
Record Conn := { db : Store; txn : option Store }.

Definition connect (s : Store) : Conn := {| db := s; txn := None |}.

Definition Handler (A : Type) : Type := Conn -> Result A * Conn.

#[global] Instance Handler_ret : MRet Handler := fun A x c => (inr x, c).

#[global] Instance Handler_bind : MBind Handler := fun A B f m c =>
  match m c with
  | (inr x, c') => f x c'
  | (inl e, c') => (inl e, c')
  end.

Definition throw {A} (e : JsError) : Handler A := fun c => (inl e, c).

(** [try { body } catch (e) { handler }] *)
Definition tryCatch {A} (body : Handler A) (handler : JsError -> Handler A)
  : Handler A :=
  fun c =>
    match body c with
    | (inl e, c') => handler e c'
    | (inr x, c') => (inr x, c')
    end.

Definition startTransaction : Handler unit :=
  fun c => (inr tt, {| db := db c; txn := Some (db c) |}).

Definition commitTransaction : Handler unit :=
  fun c => (inr tt, {| db := default (db c) (txn c); txn := None |}).

Definition abortTransaction : Handler unit :=
  fun c => (inr tt, {| db := db c; txn := None |}).

(** [session.endSession()]: an open transaction is dropped. *)
Definition endSession (c : Conn) : Store := db c.

(** What a call sees, and where it writes: the working copy of the open
    transaction when it carries [{ session }], the committed data if not. *)
Definition view (session : bool) (c : Conn) : Store :=
  if session then default (db c) (txn c) else db c.

Definition write (session : bool) (s : Store) (c : Conn) : Conn :=
  if session then
    match txn c with
    | Some _ => {| db := db c; txn := Some s |}
    | None => {| db := s; txn := None |}
    end
  else {| db := s; txn := txn c |}.

(** Storage faults: at most one storage call of a request throws; calls are
    numbered in the order they appear in the handler. *)
Definition FaultPlan : Type := option (nat * JsError).

Definition faultAt (plan : FaultPlan) (k : nat) : option JsError :=
  match plan with
  | Some (k', e) => if Nat.eqb k k' then Some e else None
  | None => None
  end.

(** [await Model.op(..., { session })], the [k]-th storage call. *)
Definition await {A} (plan : FaultPlan) (k : nat) (session : bool)
    (op : Store -> Result (A * Store)) : Handler A :=
  fun c =>
    match faultAt plan k with
    | Some e => (inl e, c)
    | None =>
        match op (view session c) with
        | inl e => (inl e, c)
        | inr (x, s') => (inr x, write session s' c)
        end
    end.

Definition noSession : bool := false.
Definition withSession : bool := true.

(** The model calls of the handlers, on the store. *)
Definition Event_findById (p : IdParam) (s : Store)
  : Result (option Event.doc * Store) :=
  match Event.findById p (events s) with
  | inl e => inl e
  | inr r => inr (r, s)
  end.

Definition Event_create (now : Z) (f : Event.fields) (s : Store)
  : Result (Event.doc * Store) :=
  match Event.create now (nextOid s) f (events s) with
  | inl e => inl e
  | inr (d, c) => inr (d, bumpOid (setEvents c s))
  end.

Definition Event_findOneAndUpdate (id : nat) (cond : Event.doc -> bool)
    (update : Event.doc -> Event.doc) (s : Store)
  : Result (option Event.doc * Store) :=
  let '(r, c) := Event.findOneAndUpdate id cond update (events s) in
  inr (r, setEvents c s).

Definition Event_findByIdAndUpdate (p : IdParam) (upd : Event.patch) (s : Store)
  : Result (option Event.doc * Store) :=
  match Event.findByIdAndUpdate p upd (events s) with
  | inl e => inl e
  | inr (r, c) => inr (r, setEvents c s)
  end.

Definition Event_findByIdAndDelete (p : IdParam) (s : Store)
  : Result (unit * Store) :=
  match Event.findByIdAndDelete p (events s) with
  | inl e => inl e
  | inr c => inr (tt, setEvents c s)
  end.

Definition RSVP_findOne (eventId userId : nat) (st : Status) (s : Store)
  : Result (option RSVP.doc * Store) :=
  inr (RSVP.findOne eventId userId st (rsvps s), s).

Definition RSVP_create (now : Z) (eventId userId : nat) (st : Status) (s : Store)
  : Result (RSVP.doc * Store) :=
  match RSVP.create now (nextOid s) eventId userId st (rsvps s) with
  | inl e => inl e
  | inr (r, c) => inr (r, bumpOid (setRsvps c s))
  end.

Definition RSVP_save (now : Z) (r : RSVP.doc) (s : Store)
  : Result (RSVP.doc * Store) :=
  match RSVP.save now r (rsvps s) with
  | inl e => inl e
  | inr (r', c) => inr (r', setRsvps c s)
  end.

Definition RSVP_deleteMany (eventId : nat) (s : Store) : Result (unit * Store) :=
  inr (tt, setRsvps (RSVP.deleteMany eventId (rsvps s)) s).

(** ** Responses *)

Module Json.

Record eventInfo := {
  id : nat;
  title : string;
  attendeeCount : Z;
  capacity : Z;
  availableSpots : Z
}.

Record rsvpInfo := {
  rsvpId : nat;
  rsvpEvent : option nat;
  status : Status;
  createdAt : Z
}.

Inductive t :=
  | message (m : string)
  | validation (m : string) (errors : list string)
  | joined (m : string) (rsvp : rsvpInfo) (event : eventInfo)
  | left (m : string) (event : eventInfo)
  | rsvpStatus (hasRsvped : bool) (rsvp : option rsvpInfo)
  | saved (m : string) (event : option Event.doc).

Definition ofEvent (e : Event.doc) : eventInfo :=
  {| id := Event._id e;
     title := Event.title e;
     attendeeCount := Event.attendeeCount e;
     capacity := Event.capacity e;
     availableSpots := Event.capacity e - Event.attendeeCount e |}.

End Json.

(** [res.status(n).json(body)] *)
Definition Response : Type := Z * Json.t.

(** The outer [try { ... } catch (error) { ... } finally { endSession }] of a
    handler, run on a store. *)
Definition respond (body : Handler Response) (onError : JsError -> Response)
    (s : Store) : Response * Store :=
  match body (connect s) with
  | (inr r, c) => (r, endSession c)
  | (inl e, c) => (onError e, endSession c)
  end.

(** ** controllers/rsvpController.js *)

Definition alreadyRsvped : Response :=
  (400, Json.message "You have already RSVPed to this event").

Definition eventFull : Response :=
  (400, Json.message "Event is at full capacity. Cannot RSVP.").

(** The filter and the update of the atomic capacity check: 
    [{ $expr: { $lt: ['$attendeeCount', '$capacity'] } }], [{ $inc: 1 }]. *)
Definition belowCapacity (e : Event.doc) : bool :=
  Event.attendeeCount e <? Event.capacity e.

(** The filter of the atomic decrement: [{ attendeeCount: { $gt: 0 } }]. *)
Definition aboveZero (e : Event.doc) : bool := 0 <? Event.attendeeCount e.

(** [cancelledRsvp.status = 'confirmed'; cancelledRsvp.updatedAt = new Date()],
    and the same with ['cancelled'] in [cancelRsvp]. *)
Definition withStatus (st : Status) (now : Z) (r : RSVP.doc) : RSVP.doc :=
  RSVP.mk (RSVP._id r) (RSVP.event r) (RSVP.user r) st (RSVP.createdAt r) now.

(** The body of the 201 answer of [createRsvp]. *)
Definition joinedJson (eid : nat) (r : RSVP.doc) (e : Event.doc) : Json.t :=
  Json.joined "RSVP successful! You are registered for this event."
    {| Json.rsvpId := RSVP._id r;
       Json.rsvpEvent := Some eid;
       Json.status := RSVP.status r;
       Json.createdAt := RSVP.createdAt r |}
    (Json.ofEvent e).

(** The block [// Create or update RSVP record]: a cancelled record is
    flipped back to confirmed and saved; otherwise a record is inserted. *)
Definition createOrUpdateRsvp (plan : FaultPlan) (now : Z) (eid userId : nat)
    (cancelledRsvp : option RSVP.doc) : Handler RSVP.doc :=
  match cancelledRsvp with
  | Some cancelledRsvp =>
    await plan 4 withSession
      (RSVP_save now (withStatus confirmed now cancelledRsvp))
  | None =>
    await plan 4 withSession (RSVP_create now eid userId confirmed)
  end.

(** Storage calls: 0 [Event.findById], 1 and 2 [RSVP.findOne],
    3 [Event.findOneAndUpdate], 4 [save] or [RSVP.create]. *)
Definition createRsvp (plan : FaultPlan) (now : Z) (eventId : IdParam)
    (userId : nat) : Store -> Response * Store :=
  respond
    (match eventId with
     | Malformed => mret (400, Json.message "Invalid event ID")
     | WellFormed eid =>
       event ← await plan 0 noSession (Event_findById eventId);
       match event with
       | None => mret (404, Json.message "Event not found")
       | Some event =>
         if Event.date event <? now
         then mret (400, Json.message "Cannot RSVP to past events")
         else
           existingRsvp ← await plan 1 noSession (RSVP_findOne eid userId confirmed);
           match existingRsvp with
           | Some _ => mret alreadyRsvped
           | None =>
             cancelledRsvp ← await plan 2 noSession (RSVP_findOne eid userId cancelled);
             startTransaction;;
             tryCatch
               (updatedEvent ← await plan 3 withSession
                  (Event_findOneAndUpdate eid belowCapacity (Event.inc 1));
                match updatedEvent with
                | None => abortTransaction;; mret eventFull
                | Some updatedEvent =>
                  rsvp ← createOrUpdateRsvp plan now eid userId cancelledRsvp;
                  commitTransaction;;
                  mret (201, joinedJson eid rsvp updatedEvent)
                end)
               (fun innerError =>
                  abortTransaction;;
                  if isDuplicateKey innerError
                  then mret alreadyRsvped
                  else throw innerError)
           end
       end
     end)
    (fun error => (500, Json.message "Error processing RSVP")).

(** Storage calls: 0 [RSVP.findOne], 1 [Event.findById], 2 [rsvp.save],
    3 [Event.findOneAndUpdate]. *)
Definition cancelRsvp (plan : FaultPlan) (now : Z) (eventId : IdParam)
    (userId : nat) : Store -> Response * Store :=
  respond
    (match eventId with
     | Malformed => mret (400, Json.message "Invalid event ID")
     | WellFormed eid =>
       rsvp ← await plan 0 noSession (RSVP_findOne eid userId confirmed);
       match rsvp with
       | None =>
         mret (404, Json.message
                      "RSVP not found. You are not registered for this event.")
       | Some rsvp =>
         event ← await plan 1 noSession (Event_findById eventId);
         match event with
         | None => mret (404, Json.message "Event not found")
         | Some event =>
           startTransaction;;
           tryCatch
             (await plan 2 withSession
                (RSVP_save now (withStatus cancelled now rsvp));;
              updatedEvent ← await plan 3 withSession
                (Event_findOneAndUpdate eid aboveZero (Event.inc (-1)));
              match updatedEvent with
              | None =>
                abortTransaction;;
                mret (500, Json.message
                             "Error updating event. Please try again.")
              | Some updatedEvent =>
                commitTransaction;;
                mret (200, Json.left "RSVP cancelled successfully."
                                     (Json.ofEvent updatedEvent))
              end)
             (fun innerError => abortTransaction;; throw innerError)
         end
       end
     end)
    (fun error => (500, Json.message "Error cancelling RSVP")).

(** Storage call: 0 [RSVP.findOne]. *)
Definition getRsvpStatus (plan : FaultPlan) (eventId : IdParam) (userId : nat)
  : Store -> Response * Store :=
  respond
    (match eventId with
     | Malformed => mret (400, Json.message "Invalid event ID")
     | WellFormed eid =>
       rsvp ← await plan 0 noSession (RSVP_findOne eid userId confirmed);
       mret (200,
             Json.rsvpStatus (bool_decide (is_Some rsvp))
               ((fun rsvp => {| Json.rsvpId := RSVP._id rsvp;
                                Json.rsvpEvent := None;
                                Json.status := RSVP.status rsvp;
                                Json.createdAt := RSVP.createdAt rsvp |})
                  <$> rsvp))
     end)
    (fun error => (500, Json.message "Error checking RSVP status")).

(** ** controllers/eventController.js *)

(** A JSON string-valued body field that is told apart from [null]. *)
Inductive JsString := undefined | null | str (s : string).

(** [req.body], with the fields the handlers destructure and one they never
    read.  [None] is [undefined]; [date] is the instant a date string
    denotes. *)
Module Body.
Record t := {
  title : option string;
  description : option string;
  date : option Z;
  location : option string;
  capacity : option Z;
  imageUrl : JsString;
  attendeeCount : option Z
}.
End Body.

(** Truthiness of a string and of a number. *)
Definition truthyStr (s : option string) : option string :=
  match s with
  | Some s => if bool_decide (s = "") then None else Some s
  | None => None
  end.

Definition truthyNum (n : option Z) : option Z :=
  match n with
  | Some n => if n =? 0 then None else Some n
  | None => None
  end.

(** [imageUrl || null] *)
Definition orNull (s : JsString) : option string :=
  match s with
  | str s => if bool_decide (s = "") then None else Some s
  | _ => None
  end.

(** Storage calls: 0 [Event.create], 1 [event.populate].  [errors] is
    [validationResult(req).array()], computed by the route's validators. *)
Definition createEvent (plan : FaultPlan) (now : Z) (errors : list string)
    (body : Body.t) (userId : nat) : Store -> Response * Store :=
  respond
    (match errors with
     | _ :: _ => mret (400, Json.validation "Validation failed" errors)
     | [] =>
       if from_option (fun d => d <? now) false (Body.date body)
       then mret (400, Json.message "Event date must be in the future")
       else
         event ← await plan 0 noSession
           (Event_create now
              {| Event.new_title := Body.title body;
                 Event.new_description := Body.description body;
                 Event.new_date := Body.date body;
                 Event.new_location := Body.location body;
                 Event.new_capacity := Body.capacity body;
                 Event.new_imageUrl := orNull (Body.imageUrl body);
                 Event.new_creator := userId;
                 Event.new_attendeeCount := 0 |});
         await plan 1 noSession (fun s => inr (tt, s));;
         mret (201, Json.saved "Event created successfully" (Some event))
     end)
    (fun error => (500, Json.message "Error creating event")).

(** [const updateData = {}; if (title) updateData.title = title; ...] *)
Definition updateData (body : Body.t) : Event.patch :=
  {| Event.set_title := truthyStr (Body.title body);
     Event.set_description := truthyStr (Body.description body);
     Event.set_date := Body.date body;
     Event.set_location := truthyStr (Body.location body);
     Event.set_capacity := truthyNum (Body.capacity body);
     Event.set_imageUrl :=
       match Body.imageUrl body with
       | undefined => None
       | null => Some None
       | str s => Some (Some s)
       end |}.

(** Storage calls: 0 [Event.findById], 1 [Event.findByIdAndUpdate]. *)
Definition updateEvent (plan : FaultPlan) (errors : list string)
    (id : IdParam) (body : Body.t) (userId : nat) : Store -> Response * Store :=
  respond
    (match errors with
     | _ :: _ => mret (400, Json.validation "Validation failed" errors)
     | [] =>
       event ← await plan 0 noSession (Event_findById id);
       match event with
       | None => mret (404, Json.message "Event not found")
       | Some event =>
         if negb (Nat.eqb (Event.creator event) userId)
         then mret (403, Json.message
              "Not authorized. Only the event creator can update this event.")
         else if from_option (fun capacity => capacity <? Event.attendeeCount event)
                   false (truthyNum (Body.capacity body))
         then mret (400, Json.message
              ("Cannot reduce capacity below current attendee count ("
               +:+ pretty (Event.attendeeCount event) +:+ ")"))
         else
           event ← await plan 1 noSession
             (Event_findByIdAndUpdate id (updateData body));
           mret (200, Json.saved "Event updated successfully" event)
       end
     end)
    (fun error =>
       if isCastError error
       then (400, Json.message "Invalid event ID")
       else (500, Json.message "Error updating event")).

(** Storage calls: 0 [Event.findById], 1 [RSVP.deleteMany],
    2 [Event.findByIdAndDelete]. *)
Definition deleteEvent (plan : FaultPlan) (id : IdParam) (userId : nat)
  : Store -> Response * Store :=
  respond
    (event ← await plan 0 noSession (Event_findById id);
     match event with
     | None => mret (404, Json.message "Event not found")
     | Some event =>
       if negb (Nat.eqb (Event.creator event) userId)
       then mret (403, Json.message
            "Not authorized. Only the event creator can delete this event.")
       else
         await plan 1 noSession (RSVP_deleteMany (Event._id event));;
         await plan 2 noSession (Event_findByIdAndDelete id);;
         mret (200, Json.message "Event deleted successfully")
     end)
    (fun error =>
       if isCastError error
       then (400, Json.message "Invalid event ID")
       else (500, Json.message "Error deleting event")).

(** ** Requests and reachable stores *)

Inductive Request :=
  | CreateEvent (errors : list string) (body : Body.t) (userId : nat)
  | UpdateEvent (errors : list string) (id : IdParam) (body : Body.t)
      (userId : nat)
  | DeleteEvent (id : IdParam) (userId : nat)
  | CreateRsvp (eventId : IdParam) (userId : nat)
  | CancelRsvp (eventId : IdParam) (userId : nat)
  | GetRsvpStatus (eventId : IdParam) (userId : nat).

(** The router: one request, served at time [now], with the storage faults
    of [plan]. *)
Definition handle (plan : FaultPlan) (now : Z) (rq : Request)
  : Store -> Response * Store :=
  match rq with
  | CreateEvent errors body userId => createEvent plan now errors body userId
  | UpdateEvent errors id body userId => updateEvent plan errors id body userId
  | DeleteEvent id userId => deleteEvent plan id userId
  | CreateRsvp eventId userId => createRsvp plan now eventId userId
  | CancelRsvp eventId userId => cancelRsvp plan now eventId userId
  | GetRsvpStatus eventId userId => getRsvpStatus plan eventId userId
  end.

(** The stores the application can produce from an empty database when it
    serves one request after the other. *)
Inductive reachable : Store -> Prop :=
  | reachable_empty : reachable emptyStore
  | reachable_handle plan now rq s :
      reachable s -> reachable (handle plan now rq s).2.

(** * Vocabulary of the verification *)

(** ** Well-formed stores *)

(** Every event has its count within [0, capacity] and is filed under its
    own [_id]. *)
Definition eventsOk (c : gmap nat Event.doc) : Prop :=
  forall id e, c !! id = Some e ->
    0 <= Event.attendeeCount e <= Event.capacity e /\ Event._id e = id.

(** The unique index and the primary key hold, every [_id] was drawn from
    the counter, and no record is on the wait list. *)
Definition rsvpsOk (n : nat) (c : list RSVP.doc) : Prop :=
  List.NoDup (map RSVP.key c) /\ List.NoDup (map RSVP._id c)
  /\ forall r, In r c -> (RSVP._id r < n)%nat /\ RSVP.status r <> waitlist.

Definition wf (s : Store) : Prop :=
  eventsOk (events s) /\ rsvpsOk (nextOid s) (rsvps s).

(** The connection of a join right after its capacity check has passed: the
    increment sits in the working copy of the open transaction. *)
Definition afterIncrement (eid : nat) (e : Event.doc) (s : Store) : Conn :=
  {| db := s;
     txn := Some (setEvents (<[eid := Event.inc 1 e]> (events s)) s) |}.

(** ** A small scenario, used to exercise the theorems *)

Definition partyBody : Body.t :=
  {| Body.title := Some "Party";
     Body.description := Some "Board games";
     Body.date := Some 100;
     Body.location := Some "Hall";
     Body.capacity := Some 1;
     Body.imageUrl := undefined;
     Body.attendeeCount := Some 7 |}.

(** User 5 creates the party at time 10; it gets [_id] 0. *)
Definition partyStore : Store :=
  (handle None 10 (CreateEvent [] partyBody 5) emptyStore).2.

Definition party : Event.doc :=
  Event.mk 0 "Party" "Board games" 100 "Hall" 1 0 None 5 10 10.

(** User 7 joins at time 20: the party is full. *)
Definition fullStore : Store :=
  (handle None 20 (CreateRsvp (WellFormed 0) 7) partyStore).2.

(** A store in which the count of the party is 0 although user 7 holds a
    confirmed record: the inconsistency a failing release points at. *)
Definition driftedStore : Store :=
  {| events := {[ 0%nat := party ]};
     rsvps := [RSVP.mk 1 0 7 confirmed 20 20];
     nextOid := 2 |}.

(** C5, as the specification words it: when the release of a leave finds the
    count at 0, the leave is rejected and the record stays cancelled. *)
Definition release_failure_keeps_cancellation : Prop :=
  forall plan now eid uid s r e,
    RSVP.findOne eid uid confirmed (rsvps s) = Some r ->
    events s !! eid = Some e ->
    (forall k, (k <= 3)%nat -> faultAt plan k = None) ->
    aboveZero e = false ->
    exists resp s',
      cancelRsvp plan now (WellFormed eid) uid s = (resp, s')
      /\ resp.1 = 500
      /\ exists r', In r' (rsvps s') /\ RSVP._id r' = RSVP._id r
                     /\ RSVP.status r' = cancelled.

(** * Attendance counts *)

(** A confirmed record of the event [eid]. *)
Definition isConfirmedFor (eid : nat) (r : RSVP.doc) : bool :=
  (Nat.eqb (RSVP.event r) eid && bool_decide (RSVP.status r = confirmed))%bool.

(** The number of confirmed records of an event. *)
Definition confirmedCount (eid : nat) (c : list RSVP.doc) : Z :=
  Z.of_nat (length (List.filter (isConfirmedFor eid) c)).

(** By how much the counter of an event exceeds the number of its confirmed
    records. *)
Definition surplus (s : Store) (id : nat) (e : Event.doc) : Z :=
  Event.attendeeCount e - confirmedCount id (rsvps s).

(** Every record references a stored event. *)
Definition noOrphan (s : Store) : Prop :=
  forall r, In r (rsvps s) -> is_Some (events s !! RSVP.event r).


(** The record a committed join stores for the pair: the cancelled record
    of the pair flipped back to confirmed, or else a new record. *)
Definition joinedRecord (now : Z) (eid uid : nat) (s : Store) : RSVP.doc :=
  match RSVP.findOne eid uid cancelled (rsvps s) with
  | Some r => withStatus confirmed now r
  | None => RSVP.mk (nextOid s) eid uid confirmed now now
  end.

(** * The read-only handlers *)

(** ** models/User.js, as far as the handlers read it

    The collection maps the [_id] of a user to the rest of the document;
    the password is [select: false] and never part of a query result. *)
Module User.

Record doc := mk {
  name : string;
  email : string;
  createdAt : Z
}.

End User.

(** ** models/Event.js: the virtuals *)

(** [this.attendeeCount >= this.capacity] *)
Definition isFull (e : Event.doc) : bool :=
  Event.capacity e <=? Event.attendeeCount e.

(** [Math.max(0, this.capacity - this.attendeeCount)] *)
Definition availableSpots (e : Event.doc) : Z :=
  Z.max 0 (Event.capacity e - Event.attendeeCount e).

(** ** Answers of the read-only handlers *)

Module View.

(** A populated user reference: [populate(path, 'name email')]. *)
Record userInfo := {
  id : nat;
  name : string;
  email : string
}.

(** [event.toObject()] with the virtuals and the populated creator. *)
Record eventObject := {
  fields : Event.doc;
  creator : option userInfo;
  isFull : bool;
  availableSpots : Z
}.

Record eventHead := {
  headId : nat;
  headTitle : string;
  headAttendeeCount : Z;
  headCapacity : Z
}.

Record attendee := {
  attendeeId : nat;
  attendeeName : string;
  attendeeEmail : string;
  rsvpDate : Z
}.

(** The event of an entry of [getMyRsvps]. *)
Record rsvpEvent := {
  eventId : nat;
  title : string;
  description : string;
  date : Z;
  location : string;
  capacity : Z;
  attendeeCount : Z;
  imageUrl : option string;
  eventCreator : option userInfo
}.

Record myRsvp := {
  rsvpId : nat;
  myRsvpDate : Z;
  event : rsvpEvent
}.

Inductive t :=
  | message (m : string)
  | roster (event : eventHead) (attendees : list attendee)
  | myRsvps (rsvps : list myRsvp)
  | oneEvent (event : eventObject) (hasRsvped : bool)
  | events (events : list eventObject).

End View.

(** The [User] collection. *)
Definition Users : Type := gmap nat User.doc.

(** What [populate] puts in place of a user reference: the selected paths
    of the user, or [null] when no such user is stored. *)
Definition populateUser (users : Users) (ref : nat) : option View.userInfo :=
  (fun u => {| View.id := ref;
               View.name := User.name u;
               View.email := User.email u |}) <$> users !! ref.

Definition toObject (users : Users) (e : Event.doc) : View.eventObject :=
  {| View.fields := e;
     View.creator := populateUser users (Event.creator e);
     View.isFull := isFull e;
     View.availableSpots := availableSpots e |}.

(** The outer [try { ... } catch (error) { ... }] of a read-only handler. *)
Definition reply (body : Handler (Z * View.t)) (onError : JsError -> Z * View.t)
    (s : Store) : (Z * View.t) * Store :=
  match body (connect s) with
  | (inr r, c) => (r, endSession c)
  | (inl e, c) => (onError e, endSession c)
  end.

(** [.sort(...)], as a stable insertion sort; [le x y] tells that [x] may
    come before [y]. *)
Fixpoint insertBy {A} (le : A -> A -> bool) (x : A) (l : list A) : list A :=
  match l with
  | [] => [x]
  | y :: l' => if le x y then x :: l else y :: insertBy le x l'
  end.

Definition sortBy {A} (le : A -> A -> bool) (l : list A) : list A :=
  foldr (insertBy le) [] l.

(** [RSVP.find(filter)] *)
Definition RSVP_find (filter : RSVP.doc -> bool) (s : Store)
  : Result (list RSVP.doc * Store) :=
  inr (List.filter filter (rsvps s), s).

(** [Event.find(filter)] *)
Definition Event_find (filter : Event.doc -> bool) (s : Store)
  : Result (list Event.doc * Store) :=
  inr (List.filter filter (snd <$> map_to_list (events s)), s).

(** [TypeError: Cannot read properties of null] *)
Definition TypeError : JsError := {| name := "TypeError"; code := None |}.

(** ** controllers/eventController.js: [getEventAttendees] *)

(** [r => ({ id: r.user._id, name: r.user.name, email: r.user.email,
    rsvpDate: r.createdAt })] on a record whose [user] is populated;
    reading a path of [null] throws. *)
Definition attendeeOf (users : Users) (r : RSVP.doc) : Result View.attendee :=
  match populateUser users (RSVP.user r) with
  | Some u => inr {| View.attendeeId := View.id u;
                     View.attendeeName := View.name u;
                     View.attendeeEmail := View.email u;
                     View.rsvpDate := RSVP.createdAt r |}
  | None => inl TypeError
  end.

(** [rsvps.map(f)] with an [f] that may throw. *)
Fixpoint mapThrowing {A B} (f : A -> Result B) (l : list A) : Result (list B) :=
  match l with
  | [] => inr []
  | x :: l' =>
      match f x with
      | inl e => inl e
      | inr y =>
          match mapThrowing f l' with
          | inl e => inl e
          | inr l'' => inr (y :: l'')
          end
      end
  end.

Definition lift {A} (r : Result A) : Handler A := fun c => (r, c).

(** Storage calls: 0 [Event.findById], 1 [RSVP.find] with its [populate]. *)
Definition getEventAttendees (plan : FaultPlan) (users : Users) (id : IdParam)
    (userId : nat) : Store -> (Z * View.t) * Store :=
  reply
    (event ← await plan 0 noSession (Event_findById id);
     match event with
     | None => mret (404, View.message "Event not found")
     | Some event =>
       if negb (Nat.eqb (Event.creator event) userId)
       then mret (403, View.message
            "Not authorized. Only the event creator can view attendees.")
       else
         rsvps ← await plan 1 noSession
           (RSVP_find (fun r => (Nat.eqb (RSVP.event r) (Event._id event)
                                 && bool_decide (RSVP.status r = confirmed))%bool));
         attendees ← lift (mapThrowing (attendeeOf users) rsvps);
         mret (200,
               View.roster
                 {| View.headId := Event._id event;
                    View.headTitle := Event.title event;
                    View.headAttendeeCount := Event.attendeeCount event;
                    View.headCapacity := Event.capacity event |}
                 attendees)
     end)
    (fun error => (500, View.message "Error fetching attendees")).

(** ** controllers/rsvpController.js: [getMyRsvps] *)

(** The paths of a populated event that [getMyRsvps] reports, the
    [creator] of the event being populated in turn. *)
Definition rsvpEventOf (users : Users) (e : Event.doc) : View.rsvpEvent :=
  {| View.eventId := Event._id e;
     View.title := Event.title e;
     View.description := Event.description e;
     View.date := Event.date e;
     View.location := Event.location e;
     View.capacity := Event.capacity e;
     View.attendeeCount := Event.attendeeCount e;
     View.imageUrl := Event.imageUrl e;
     View.eventCreator := populateUser users (Event.creator e) |}.

(** A record with its [event] path populated: [null] when the event is not
    stored. *)
Definition populateEvent (users : Users) (s : Store) (r : RSVP.doc)
  : RSVP.doc * option View.rsvpEvent :=
  (r, rsvpEventOf users <$> events s !! RSVP.event r).

(** [.sort({ createdAt: -1 })] *)
Definition newestFirst (x y : RSVP.doc * option View.rsvpEvent) : bool :=
  RSVP.createdAt y.1 <=? RSVP.createdAt x.1.

(** [rsvp.event && new Date(rsvp.event.date) >= new Date()] *)
Definition upcoming (now : Z) (x : RSVP.doc * option View.rsvpEvent) : bool :=
  match x.2 with
  | Some e => now <=? View.date e
  | None => false
  end.

Definition myRsvpOf (x : RSVP.doc * option View.rsvpEvent)
  : option View.myRsvp :=
  (fun e => {| View.rsvpId := RSVP._id x.1;
               View.myRsvpDate := RSVP.createdAt x.1;
               View.event := e |}) <$> x.2.

(** The query of [getMyRsvps], with its [populate] and its [sort]. *)
Definition RSVP_findMine (users : Users) (userId : nat) (s : Store)
  : Result (list (RSVP.doc * option View.rsvpEvent) * Store) :=
  inr (sortBy newestFirst
         (populateEvent users s <$>
            List.filter (fun r => (Nat.eqb (RSVP.user r) userId
                                   && bool_decide (RSVP.status r = confirmed))%bool)
              (rsvps s)),
       s).

(** Storage call: 0 [RSVP.find] with its [populate] and [sort]. *)
Definition getMyRsvps (plan : FaultPlan) (users : Users) (now : Z)
    (userId : nat) : Store -> (Z * View.t) * Store :=
  reply
    (rsvps ← await plan 0 noSession (RSVP_findMine users userId);
     let upcomingRsvps := List.filter (upcoming now) rsvps in
     mret (200, View.myRsvps (omap myRsvpOf upcomingRsvps)))
    (fun error => (500, View.message "Error fetching RSVPs")).

(** ** controllers/eventController.js: [getEvent], [getMyEvents] *)

(** Storage calls: 0 [Event.findById] with its [populate],
    1 [RSVP.findOne].  [user] is [req.user], which the optional
    authentication may have left unset. *)
Definition getEvent (plan : FaultPlan) (users : Users) (id : IdParam)
    (user : option nat) : Store -> (Z * View.t) * Store :=
  reply
    (event ← await plan 0 noSession (Event_findById id);
     match event with
     | None => mret (404, View.message "Event not found")
     | Some event =>
       hasRsvped ← match user with
                   | Some userId =>
                     rsvp ← await plan 1 noSession
                       (RSVP_findOne (Event._id event) userId confirmed);
                     mret (bool_decide (is_Some rsvp))
                   | None => mret false
                   end;
       mret (200, View.oneEvent (toObject users event) hasRsvped)
     end)
    (fun error =>
       if isCastError error
       then (400, View.message "Invalid event ID")
       else (500, View.message "Error fetching event")).

(** [.sort({ date: 1 })] *)
Definition earliestFirst (x y : Event.doc) : bool :=
  Event.date x <=? Event.date y.

(** Storage call: 0 [Event.find] with its [populate] and [sort]. *)
Definition getMyEvents (plan : FaultPlan) (users : Users) (userId : nat)
  : Store -> (Z * View.t) * Store :=
  reply
    (events ← await plan 0 noSession
       (fun s =>
          match Event_find (fun e => Nat.eqb (Event.creator e) userId) s with
          | inl e => inl e
          | inr (l, s') => inr (sortBy earliestFirst l, s')
          end);
     mret (200, View.events (toObject users <$> events)))
    (fun error => (500, View.message "Error fetching your events")).


(** * Requests that overlap

    A handler is an [async] function: it gives up control at every [await],
    and the calls of other requests may take effect before it goes on.  The
    definitions below cut each handler at its storage calls.  What runs
    between [startTransaction] and the commit or the abort is one step:
    MongoDB isolates the transaction, and a conflict with a concurrent
    write shows as a fault of the call that meets it. *)

Module Async.

(** What is left of a handler: an answer, or a step on the connection and
    the rest of the handler, which gets the result of the step. *)
Inductive Prog (A : Type) : Type :=
  | Done (a : A)
  | Step {X : Type} (call : Handler X) (k : X -> Prog A).

Arguments Done {A} a.
Arguments Step {A X} call k.

Fixpoint bind {A B} (f : A -> Prog B) (m : Prog A) : Prog B :=
  match m with
  | Done a => f a
  | Step call k => Step call (fun x => bind f (k x))
  end.

#[global] Instance Prog_ret : MRet Prog := fun A x => Done x.
#[global] Instance Prog_bind : MBind Prog := fun A B f m => bind f m.

(** One step, then control is given up. *)
Definition step {X} (call : Handler X) : Prog X := Step call Done.

(** ** controllers/rsvpController.js *)

(** The transaction of [createRsvp]. *)
Definition reserve_and_record (plan : FaultPlan) (now : Z) (eid userId : nat)
    (cancelledRsvp : option RSVP.doc) : Handler Response :=
  startTransaction;;
  tryCatch
    (updatedEvent ← await plan 3 withSession
       (Event_findOneAndUpdate eid belowCapacity (Event.inc 1));
     match updatedEvent with
     | None => abortTransaction;; mret eventFull
     | Some updatedEvent =>
       rsvp ← createOrUpdateRsvp plan now eid userId cancelledRsvp;
       commitTransaction;;
       mret (201, joinedJson eid rsvp updatedEvent)
     end)
    (fun innerError =>
       abortTransaction;;
       if isDuplicateKey innerError
       then mret alreadyRsvped
       else throw innerError).

Definition createRsvp (plan : FaultPlan) (now : Z) (eventId : IdParam)
    (userId : nat) : Prog Response :=
  match eventId with
  | Malformed => mret (400, Json.message "Invalid event ID")
  | WellFormed eid =>
    event ← step (await plan 0 noSession (Event_findById eventId));
    match event with
    | None => mret (404, Json.message "Event not found")
    | Some event =>
      if Event.date event <? now
      then mret (400, Json.message "Cannot RSVP to past events")
      else
        existingRsvp ← step (await plan 1 noSession
                               (RSVP_findOne eid userId confirmed));
        match existingRsvp with
        | Some _ => mret alreadyRsvped
        | None =>
          cancelledRsvp ← step (await plan 2 noSession
                                  (RSVP_findOne eid userId cancelled));
          step (reserve_and_record plan now eid userId cancelledRsvp)
        end
    end
  end.

(** The transaction of [cancelRsvp]. *)
Definition cancel_and_release (plan : FaultPlan) (now : Z) (eid : nat)
    (rsvp : RSVP.doc) : Handler Response :=
  startTransaction;;
  tryCatch
    (await plan 2 withSession (RSVP_save now (withStatus cancelled now rsvp));;
     updatedEvent ← await plan 3 withSession
       (Event_findOneAndUpdate eid aboveZero (Event.inc (-1)));
     match updatedEvent with
     | None =>
       abortTransaction;;
       mret (500, Json.message "Error updating event. Please try again.")
     | Some updatedEvent =>
       commitTransaction;;
       mret (200, Json.left "RSVP cancelled successfully."
                            (Json.ofEvent updatedEvent))
     end)
    (fun innerError => abortTransaction;; throw innerError).

Definition cancelRsvp (plan : FaultPlan) (now : Z) (eventId : IdParam)
    (userId : nat) : Prog Response :=
  match eventId with
  | Malformed => mret (400, Json.message "Invalid event ID")
  | WellFormed eid =>
    rsvp ← step (await plan 0 noSession (RSVP_findOne eid userId confirmed));
    match rsvp with
    | None =>
      mret (404, Json.message
                   "RSVP not found. You are not registered for this event.")
    | Some rsvp =>
      event ← step (await plan 1 noSession (Event_findById eventId));
      match event with
      | None => mret (404, Json.message "Event not found")
      | Some event => step (cancel_and_release plan now eid rsvp)
      end
    end
  end.

Definition getRsvpStatus (plan : FaultPlan) (eventId : IdParam) (userId : nat)
  : Prog Response :=
  match eventId with
  | Malformed => mret (400, Json.message "Invalid event ID")
  | WellFormed eid =>
    rsvp ← step (await plan 0 noSession (RSVP_findOne eid userId confirmed));
    mret (200,
          Json.rsvpStatus (bool_decide (is_Some rsvp))
            ((fun rsvp => {| Json.rsvpId := RSVP._id rsvp;
                             Json.rsvpEvent := None;
                             Json.status := RSVP.status rsvp;
                             Json.createdAt := RSVP.createdAt rsvp |})
               <$> rsvp))
  end.

(** ** controllers/eventController.js *)

Definition createEvent (plan : FaultPlan) (now : Z) (errors : list string)
    (body : Body.t) (userId : nat) : Prog Response :=
  match errors with
  | _ :: _ => mret (400, Json.validation "Validation failed" errors)
  | [] =>
    if from_option (fun d => d <? now) false (Body.date body)
    then mret (400, Json.message "Event date must be in the future")
    else
      event ← step (await plan 0 noSession
        (Event_create now
           {| Event.new_title := Body.title body;
              Event.new_description := Body.description body;
              Event.new_date := Body.date body;
              Event.new_location := Body.location body;
              Event.new_capacity := Body.capacity body;
              Event.new_imageUrl := orNull (Body.imageUrl body);
              Event.new_creator := userId;
              Event.new_attendeeCount := 0 |}));
      step (await plan 1 noSession (fun s => inr (tt, s)));;
      mret (201, Json.saved "Event created successfully" (Some event))
  end.

(** The check of the capacity uses the [event] that call 0 has read; call 1
    writes whatever the event has become in the meantime. *)
Definition updateEvent (plan : FaultPlan) (errors : list string)
    (id : IdParam) (body : Body.t) (userId : nat) : Prog Response :=
  match errors with
  | _ :: _ => mret (400, Json.validation "Validation failed" errors)
  | [] =>
    event ← step (await plan 0 noSession (Event_findById id));
    match event with
    | None => mret (404, Json.message "Event not found")
    | Some event =>
      if negb (Nat.eqb (Event.creator event) userId)
      then mret (403, Json.message
           "Not authorized. Only the event creator can update this event.")
      else if from_option (fun capacity => capacity <? Event.attendeeCount event)
                false (truthyNum (Body.capacity body))
      then mret (400, Json.message
           ("Cannot reduce capacity below current attendee count ("
            +:+ pretty (Event.attendeeCount event) +:+ ")"))
      else
        event ← step (await plan 1 noSession
                        (Event_findByIdAndUpdate id (updateData body)));
        mret (200, Json.saved "Event updated successfully" event)
    end
  end.

Definition deleteEvent (plan : FaultPlan) (id : IdParam) (userId : nat)
  : Prog Response :=
  event ← step (await plan 0 noSession (Event_findById id));
  match event with
  | None => mret (404, Json.message "Event not found")
  | Some event =>
    if negb (Nat.eqb (Event.creator event) userId)
    then mret (403, Json.message
         "Not authorized. Only the event creator can delete this event.")
    else
      step (await plan 1 noSession (RSVP_deleteMany (Event._id event)));;
      step (await plan 2 noSession (Event_findByIdAndDelete id));;
      mret (200, Json.message "Event deleted successfully")
  end.

(** ** Requests in flight *)

(** The router. *)
Definition handle (plan : FaultPlan) (now : Z) (rq : Request) : Prog Response :=
  match rq with
  | CreateEvent errors body userId => createEvent plan now errors body userId
  | UpdateEvent errors id body userId => updateEvent plan errors id body userId
  | DeleteEvent id userId => deleteEvent plan id userId
  | CreateRsvp eventId userId => createRsvp plan now eventId userId
  | CancelRsvp eventId userId => cancelRsvp plan now eventId userId
  | GetRsvpStatus eventId userId => getRsvpStatus plan eventId userId
  end.

(** The outer [catch] of the handlers. *)
Definition onError (rq : Request) (error : JsError) : Response :=
  match rq with
  | CreateEvent _ _ _ => (500, Json.message "Error creating event")
  | UpdateEvent _ _ _ _ =>
      if isCastError error
      then (400, Json.message "Invalid event ID")
      else (500, Json.message "Error updating event")
  | DeleteEvent _ _ =>
      if isCastError error
      then (400, Json.message "Invalid event ID")
      else (500, Json.message "Error deleting event")
  | CreateRsvp _ _ => (500, Json.message "Error processing RSVP")
  | CancelRsvp _ _ => (500, Json.message "Error cancelling RSVP")
  | GetRsvpStatus _ _ => (500, Json.message "Error checking RSVP status")
  end.

(** A request and what is left of its handler. *)
Record Task := {
  request : Request;
  rest : Prog Response
}.

(** A handler that has nothing left to await has answered. *)
Definition settle (rq : Request) (p : Prog Response) : Task + Response :=
  match p with
  | Done r => inr r
  | _ => inl {| request := rq; rest := p |}
  end.

(** The next step of a task, on the committed data. *)
Definition resume (t : Task) (s : Store) : (Task + Response) * Store :=
  match rest t with
  | Done r => (inr r, s)
  | Step call k =>
      match call (connect s) with
      | (inr x, c) => (settle (request t) (k x), endSession c)
      | (inl e, c) => (inr (onError (request t) e), endSession c)
      end
  end.

(** A request served alone, from its arrival to its answer. *)
Fixpoint serve (rq : Request) (p : Prog Response) (s : Store)
  : Response * Store :=
  match p with
  | Done r => (r, s)
  | Step call k =>
      match call (connect s) with
      | (inr x, c) => serve rq (k x) (endSession c)
      | (inl e, c) => (onError rq e, endSession c)
      end
  end.

(** The server: the committed data, the requests in flight and the answers
    given so far. *)
Record Config := {
  committed : Store;
  inFlight : list Task;
  answers : list (Request * Response)
}.

Definition idle : Config :=
  {| committed := emptyStore; inFlight := []; answers := [] |}.

(** A request arrives, or the request in flight at position [i] takes its
    next step. *)
Inductive Action :=
  | Arrive (plan : FaultPlan) (now : Z) (rq : Request)
  | Resume (i : nat).

Definition act (a : Action) (cfg : Config) : Config :=
  match a with
  | Arrive plan now rq =>
      match settle rq (handle plan now rq) with
      | inl t => {| committed := committed cfg;
                    inFlight := inFlight cfg ++ [t];
                    answers := answers cfg |}
      | inr r => {| committed := committed cfg;
                    inFlight := inFlight cfg;
                    answers := answers cfg ++ [(rq, r)] |}
      end
  | Resume i =>
      match inFlight cfg !! i with
      | None => cfg
      | Some t =>
          match resume t (committed cfg) with
          | (inl t', s) => {| committed := s;
                              inFlight := <[i := t']> (inFlight cfg);
                              answers := answers cfg |}
          | (inr r, s) => {| committed := s;
                             inFlight := delete i (inFlight cfg);
                             answers := answers cfg ++ [(request t, r)] |}
          end
      end
  end.

Definition exec (schedule : list Action) (cfg : Config) : Config :=
  foldl (fun cfg a => act a cfg) cfg schedule.

(** The configurations the server can be in, when the requests that arrive
    are [allowed] ones. *)
Inductive overlapping (allowed : Request -> Prop) : Config -> Prop :=
  | overlapping_idle : overlapping allowed idle
  | overlapping_arrive plan now rq cfg :
      allowed rq -> overlapping allowed cfg ->
      overlapping allowed (act (Arrive plan now rq) cfg)
  | overlapping_resume i cfg :
      overlapping allowed cfg -> overlapping allowed (act (Resume i) cfg).

(** Every step that is left keeps [P]. *)
Fixpoint keeps {A} (P : Store -> Prop) (p : Prog A) : Prop :=
  match p with
  | Done _ => True
  | Step call k =>
      (forall s, P s -> P (endSession (call (connect s)).2))
      /\ forall x, keeps P (k x)
  end.

End Async.

(** Any request may arrive. *)
Definition anyRequest (rq : Request) : Prop := True.


(** Every event has a count of at least 0 and is filed under its own
    [_id]. *)
Definition countsOk (c : gmap nat Event.doc) : Prop :=
  forall id e, c !! id = Some e ->
    0 <= Event.attendeeCount e /\ Event._id e = id.

(** ** Two schedules of overlapping requests *)

Definition hallBody : Body.t :=
  {| Body.title := Some "Concert";
     Body.description := Some "Two seats";
     Body.date := Some 100;
     Body.location := Some "Hall";
     Body.capacity := Some 2;
     Body.imageUrl := undefined;
     Body.attendeeCount := None |}.

Definition shrinkBody : Body.t :=
  {| Body.title := None;
     Body.description := None;
     Body.date := None;
     Body.location := None;
     Body.capacity := Some 1;
     Body.imageUrl := undefined;
     Body.attendeeCount := None |}.

(** User 5 creates an event for two and user 7 joins it, one request after
    the other. *)
Definition concertSchedule : list Async.Action :=
  [ Async.Arrive None 10 (CreateEvent [] hallBody 5);
    Async.Resume 0; Async.Resume 0;
    Async.Arrive None 20 (CreateRsvp (WellFormed 0) 7);
    Async.Resume 0; Async.Resume 0; Async.Resume 0; Async.Resume 0 ].


(** User 5 then asks for a capacity of 1: the handler reads the event, with
    its count of 1, and passes the check.  Before it writes, the join of
    user 8 is served.  Then the update writes. *)
Definition overbookingSchedule : list Async.Action :=
  concertSchedule ++
  [ Async.Arrive None 30 (UpdateEvent [] (WellFormed 0) shrinkBody 5);
    Async.Resume 0;
    Async.Arrive None 30 (CreateRsvp (WellFormed 0) 8);
    Async.Resume 1; Async.Resume 1; Async.Resume 1; Async.Resume 1;
    Async.Resume 0 ].

(** The event as [overbookingSchedule] leaves it. *)
Definition overbooked : Event.doc :=
  Event.mk 0 "Concert" "Two seats" 100 "Hall" 1 2 None 5 10 10.


(** * Verification *)

(** ** Symbolic execution of handlers

    [red_handler] unfolds the monad and the storage calls, and rewrites with
    the equations already recorded; [on_match] makes a case distinction on
    the next test the handler performs. *)

Ltac unfold_handler :=
  cbv beta iota zeta delta
    [respond mbind mret Handler_bind Handler_ret await tryCatch throw
     startTransaction commitTransaction abortTransaction connect endSession
     view write noSession withSession db txn fst snd createOrUpdateRsvp
     Event_findById Event_create Event_findOneAndUpdate Event_findByIdAndUpdate
     Event_findByIdAndDelete RSVP_findOne RSVP_create RSVP_save RSVP_deleteMany
     Event.findById Event.findOneAndUpdate Event.findByIdAndDelete
     alreadyRsvped eventFull default from_option id handle];
  cbn [events rsvps nextOid setEvents setRsvps bumpOid negb faultAt].

Ltac red_handler :=
  unfold_handler;
  repeat match goal with
         | H : ?x = _ |- context [match ?x with _ => _ end] =>
             rewrite H; unfold_handler
         end.

Ltac on x := tryif is_constructor x then fail else (destruct x eqn:?; red_handler).

Ltac on_match :=
  match goal with
  | |- context [match ?p with Malformed => _ | WellFormed _ => _ end] =>
      is_var p; destruct p; red_handler
  | |- context [match ?l with [] => _ | _ :: _ => _ end] =>
      is_var l; destruct l; red_handler
  | |- context [match faultAt ?p ?k with _ => _ end] => on (faultAt p k)
  | |- context [match events ?s !! ?i with _ => _ end] => on (events s !! i)
  | |- context [match truthyNum ?x with _ => _ end] => on (truthyNum x)
  | |- context [match RSVP.findOne ?a ?b ?c ?d with _ => _ end] =>
      on (RSVP.findOne a b c d)
  | |- context [match RSVP.save ?a ?b ?c with _ => _ end] =>
      on (RSVP.save a b c)
  | |- context [match RSVP.create ?a ?b ?c ?d ?e ?f with _ => _ end] =>
      on (RSVP.create a b c d e f)
  | |- context [match Event.create ?a ?b ?c ?d with _ => _ end] =>
      on (Event.create a b c d)
  | |- context [match Event.findByIdAndUpdate ?a ?b ?c with _ => _ end] =>
      on (Event.findByIdAndUpdate a b c)
  | |- context [let (_, _) := ?p in _] => is_var p; destruct p; red_handler
  | |- context [match Body.date ?b with _ => _ end] => on (Body.date b)
  | |- context [if negb ?b then _ else _] => on b
  | |- context [if ?b then _ else _] =>
      lazymatch b with
      | context [match _ with _ => _ end] => fail
      | _ => on b
      end
  end.

Ltac run_handler := red_handler; repeat on_match.

(** ** The RSVP collection *)

Section rsvp_collection.

Implicit Types (c : list RSVP.doc) (r x : RSVP.doc).

Lemma findOne_Some eid uid st c r :
  RSVP.findOne eid uid st c = Some r ->
  In r c /\ RSVP.event r = eid /\ RSVP.user r = uid /\ RSVP.status r = st.
Proof.
  intros H. apply find_some in H as [Hin Hm]. split; [done|].
  unfold RSVP.matches in Hm.
  apply andb_prop in Hm as [Hm Hs]. apply andb_prop in Hm as [He Hu].
  apply Nat.eqb_eq in He, Hu. by apply bool_decide_eq_true in Hs.
Qed.

Lemma findOne_None eid uid st c r :
  RSVP.findOne eid uid st c = None -> In r c ->
  RSVP.event r = eid -> RSVP.user r = uid -> RSVP.status r <> st.
Proof.
  intros H Hin He Hu Hs.
  pose proof (find_none _ _ H r Hin) as Hm.
  unfold RSVP.matches in Hm.
  rewrite He, Hu, !Nat.eqb_refl in Hm. cbn in Hm.
  by apply bool_decide_eq_false in Hm.
Qed.

Lemma store_key r x : RSVP.key (RSVP.store r x) = RSVP.key x.
Proof. unfold RSVP.store. by destruct (Nat.eqb _ _). Qed.

Lemma store_id r x : RSVP._id (RSVP.store r x) = RSVP._id x.
Proof. unfold RSVP.store. by destruct (Nat.eqb _ _). Qed.

Lemma map_store_keys r c : map RSVP.key (map (RSVP.store r) c) = map RSVP.key c.
Proof. rewrite map_map. apply map_ext, store_key. Qed.

Lemma map_store_ids r c : map RSVP._id (map (RSVP.store r) c) = map RSVP._id c.
Proof. rewrite map_map. apply map_ext, store_id. Qed.

Lemma save_inr now r c r' c' :
  RSVP.save now r c = inr (r', c') ->
  r' = RSVP.mk (RSVP._id r) (RSVP.event r) (RSVP.user r) (RSVP.status r)
               (RSVP.createdAt r) now
  /\ c' = map (RSVP.store r') c.
Proof.
  unfold RSVP.save. destruct (existsb _ c); [|done].
  intros [= <- <-]. done.
Qed.

Lemma create_inr now oid eid uid st c r c' :
  RSVP.create now oid eid uid st c = inr (r, c') ->
  r = RSVP.mk oid eid uid st now now /\ c' = c ++ [r]
  /\ forall x, In x c -> RSVP._id x <> oid /\ RSVP.key x <> (eid, uid).
Proof.
  unfold RSVP.create. destruct (existsb _ c) eqn:E; [done|].
  intros [= <- <-]. repeat split; try done.
  - intros Hid. apply not_true_iff_false in E. apply E.
    apply existsb_exists. exists x. split; [done|].
    apply orb_true_intro. left. by apply Nat.eqb_eq.
  - intros Hk. apply not_true_iff_false in E. apply E.
    apply existsb_exists. exists x. split; [done|].
    apply orb_true_intro. right. unfold RSVP.sameKey, RSVP.key in *.
    injection Hk as -> ->. by rewrite !Nat.eqb_refl.
Qed.

Lemma create_inl now oid eid uid st c e :
  RSVP.create now oid eid uid st c = inl e -> e = DuplicateKeyError.
Proof. unfold RSVP.create. destruct (existsb _ c); congruence. Qed.

Lemma create_fresh now oid eid uid st c :
  (forall x, In x c -> RSVP._id x <> oid /\ RSVP.key x <> (eid, uid)) ->
  RSVP.create now oid eid uid st c =
    inr (RSVP.mk oid eid uid st now now, c ++ [RSVP.mk oid eid uid st now now]).
Proof.
  intros H. unfold RSVP.create. destruct (existsb _ c) eqn:E; [|done].
  apply existsb_exists in E as (x & Hin & Hx). destruct (H x Hin) as [Hid Hk].
  apply orb_prop in Hx as [Hx|Hx].
  - by apply Nat.eqb_eq in Hx.
  - unfold RSVP.sameKey in Hx. apply andb_prop in Hx as [He Hu].
    apply Nat.eqb_eq in He, Hu. destruct Hk. unfold RSVP.key. congruence.
Qed.

Lemma deleteMany_In eid c r :
  In r (RSVP.deleteMany eid c) <-> In r c /\ RSVP.event r <> eid.
Proof.
  unfold RSVP.deleteMany. rewrite filter_In, negb_true_iff, Nat.eqb_neq. done.
Qed.

Lemma NoDup_map_filter {B} (f : RSVP.doc -> B) (p : RSVP.doc -> bool) c :
  List.NoDup (map f c) -> List.NoDup (map f (List.filter p c)).
Proof.
  induction c as [|x c IH]; cbn; [done|].
  rewrite List.NoDup_cons_iff. intros [Hx Hnd].
  destruct (p x); cbn; [|by apply IH].
  apply List.NoDup_cons_iff. split; [|by apply IH].
  intros Hin. apply Hx. apply in_map_iff in Hin as (y & Hy & Hin).
  apply filter_In in Hin as [Hin _]. apply in_map_iff. eauto.
Qed.

Lemma NoDup_map_snoc {B} (f : RSVP.doc -> B) c r :
  List.NoDup (map f c) -> (forall x, In x c -> f x <> f r) ->
  List.NoDup (map f (c ++ [r])).
Proof.
  induction c as [|x c IH]; cbn.
  - intros _ _. apply List.NoDup_cons_iff. split; [by intros []|constructor].
  - rewrite !List.NoDup_cons_iff. intros [Hx Hnd] Hne. split.
    + rewrite map_app, in_app_iff. intros [Hin|[Hin|[]]]; [done|].
      by apply (Hne x); [left|].
    + apply IH; [done|]. intros y Hy. apply Hne. by right.
Qed.

Lemma find_is_Some (f : RSVP.doc -> bool) c x :
  In x c -> f x = true -> exists y, List.find f c = Some y.
Proof.
  intros Hin Hf. destruct (List.find f c) as [y|] eqn:E; [eauto|].
  pose proof (find_none _ _ E x Hin). congruence.
Qed.

Lemma find_is_None (f : RSVP.doc -> bool) c :
  (forall x, In x c -> f x = false) -> List.find f c = None.
Proof.
  intros H. destruct (List.find f c) as [y|] eqn:E; [|done].
  apply find_some in E as [Hin Hf]. rewrite (H y Hin) in Hf. done.
Qed.

Lemma save_found now st r c :
  In r c ->
  RSVP.save now (withStatus st now r) c =
    inr (withStatus st now r, map (RSVP.store (withStatus st now r)) c).
Proof.
  intros Hin. unfold RSVP.save.
  destruct (existsb _ c) eqn:E; [done|].
  apply not_true_iff_false in E. destruct E.
  apply existsb_exists. exists r. split; [done|]. apply Nat.eqb_refl.
Qed.

Lemma NoDup_map_inj {B} (f : RSVP.doc -> B) c x y :
  List.NoDup (map f c) -> In x c -> In y c -> f x = f y -> x = y.
Proof.
  induction c as [|z c IH]; cbn; [done|].
  rewrite List.NoDup_cons_iff. intros [Hz Hnd] [->|Hx] [->|Hy] Hf; auto.
  - destruct Hz. rewrite Hf. by apply in_map.
  - destruct Hz. rewrite <- Hf. by apply in_map.
Qed.

(** Once the record of a pair is stored as cancelled, the pair has no
    confirmed record: the unique index leaves no other record for it. *)
Lemma cancelled_not_found now r c :
  List.NoDup (map RSVP.key c) -> In r c ->
  RSVP.findOne (RSVP.event r) (RSVP.user r) confirmed
    (map (RSVP.store (withStatus cancelled now r)) c) = None.
Proof.
  intros Hnd Hin. apply find_is_None. intros x Hx.
  apply in_map_iff in Hx as (y & <- & Hy).
  unfold RSVP.matches.
  destruct (Nat.eqb (RSVP.event (RSVP.store _ y)) _) eqn:He; [|done].
  destruct (Nat.eqb (RSVP.user (RSVP.store _ y)) _) eqn:Hu; [|done].
  cbn. apply bool_decide_eq_false.
  assert (RSVP.key (RSVP.store (withStatus cancelled now r) y) = RSVP.key r) as Hk.
  { apply Nat.eqb_eq in He, Hu. unfold RSVP.key. congruence. }
  rewrite store_key in Hk.
  rewrite (NoDup_map_inj RSVP.key c y r Hnd Hy Hin Hk).
  unfold RSVP.store. cbn. by rewrite Nat.eqb_refl.
Qed.


End rsvp_collection.

Lemma eventsOk_join c id e :
  eventsOk c -> c !! id = Some e -> belowCapacity e = true ->
  eventsOk (<[id := Event.inc 1 e]> c).
Proof.
  intros Hc He Hlt i x. destruct (Hc id e He) as [Hr Hid].
  unfold belowCapacity in Hlt. apply Z.ltb_lt in Hlt.
  rewrite lookup_insert. case_decide; [|by apply Hc].
  intros [= <-]. subst i. cbn. split; [lia|done].
Qed.

Lemma eventsOk_leave c id e :
  eventsOk c -> c !! id = Some e -> aboveZero e = true ->
  eventsOk (<[id := Event.inc (-1) e]> c).
Proof.
  intros Hc He Hlt i x. destruct (Hc id e He) as [Hr Hid].
  unfold aboveZero in Hlt. apply Z.ltb_lt in Hlt.
  rewrite lookup_insert. case_decide; [|by apply Hc].
  intros [= <-]. subst i. cbn. split; [lia|done].
Qed.

Lemma eventsOk_delete c id : eventsOk c -> eventsOk (delete id c).
Proof.
  intros Hc i x. rewrite lookup_delete. case_decide; [done|]. apply Hc.
Qed.

Lemma Event_create_inr now oid f c e c' :
  Event.create now oid f c = inr (e, c') ->
  c' = <[oid := e]> c /\ Event._id e = oid
  /\ Event.attendeeCount e = Event.new_attendeeCount f
  /\ Event.validCapacity (Event.capacity e) = true
  /\ Event.validAttendeeCount (Event.attendeeCount e) = true.
Proof.
  unfold Event.create.
  destruct (Event.new_title f), (Event.new_description f), (Event.new_date f),
    (Event.new_location f), (Event.new_capacity f); try done.
  cbn. destruct (_ && _)%bool eqn:Hv; [|done].
  destruct (c !! oid); [done|]. intros [= <- <-]. cbn.
  repeat (apply andb_prop in Hv as [Hv ?]). done.
Qed.

Lemma eventsOk_create now oid f c e c' :
  eventsOk c -> Event.create now oid f c = inr (e, c') ->
  Event.new_attendeeCount f = 0 -> eventsOk c'.
Proof.
  intros Hc H H0. apply Event_create_inr in H as (-> & Hid & Hn & Hcap & _).
  intros i x. rewrite lookup_insert. case_decide; [|by apply Hc].
  intros [= <-]. subst i. split; [|done].
  unfold Event.validCapacity in Hcap. apply andb_prop in Hcap as [H1 _].
  apply Z.leb_le in H1. lia.
Qed.

Lemma findByIdAndUpdate_inr p upd c r c' :
  Event.findByIdAndUpdate p upd c = inr (r, c') ->
  (r = None /\ c' = c)
  \/ exists id e, p = WellFormed id /\ c !! id = Some e
       /\ r = Some (Event.apply (Event.cast upd) e)
       /\ c' = <[id := Event.apply (Event.cast upd) e]> c.
Proof.
  unfold Event.findByIdAndUpdate. destruct p as [|id]; [done|].
  destruct (Event.validPatch _); [|done].
  destruct (c !! id) as [e|] eqn:He; intros [= <- <-]; [right|left]; eauto 10.
Qed.

Lemma eventsOk_update c id e upd :
  eventsOk c -> c !! id = Some e ->
  from_option (fun n => n <? Event.attendeeCount e) false (Event.set_capacity upd)
    = false ->
  eventsOk (<[id := Event.apply (Event.cast upd) e]> c).
Proof.
  intros Hc He Hg i x. destruct (Hc id e He) as [Hr Hid].
  rewrite lookup_insert. case_decide; [|by apply Hc].
  intros [= <-]. subst i. cbn. split; [|done].
  destruct (Event.set_capacity upd) as [n|]; cbn in *; [|done].
  apply Z.ltb_ge in Hg. lia.
Qed.

Lemma rsvpsOk_save n now r c r' c' :
  rsvpsOk n c -> RSVP.save now r c = inr (r', c') ->
  RSVP.status r <> waitlist -> rsvpsOk n c'.
Proof.
  intros (Hk & Hi & Hall) H Hst. apply save_inr in H as [Hr' ->].
  unfold rsvpsOk. rewrite map_store_keys, map_store_ids.
  repeat split; try done.
  - apply in_map_iff in H as (x & <- & Hin). rewrite store_id. by apply Hall.
  - apply in_map_iff in H as (x & <- & Hin). unfold RSVP.store.
    destruct (Nat.eqb _ _); cbn; [by subst r'|by apply Hall].
Qed.

Lemma rsvpsOk_create n now eid uid st c r c' :
  rsvpsOk n c -> RSVP.create now n eid uid st c = inr (r, c') ->
  st <> waitlist -> rsvpsOk (S n) c'.
Proof.
  intros (Hk & Hi & Hall) H Hst. apply create_inr in H as (Hr & -> & Hfresh).
  repeat split.
  - apply NoDup_map_snoc; [done|]. intros x Hx. subst r. by apply Hfresh.
  - apply NoDup_map_snoc; [done|]. intros x Hx. subst r. by apply Hfresh.
  - apply in_app_iff in H as [H|[<-|[]]]; [apply Hall in H as [H _]; lia|].
    subst r. cbn. lia.
  - apply in_app_iff in H as [H|[<-|[]]]; [by apply Hall|]. by subst r.
Qed.

Lemma rsvpsOk_deleteMany n eid c : rsvpsOk n c -> rsvpsOk n (RSVP.deleteMany eid c).
Proof.
  intros (Hk & Hi & Hall). repeat split; try by apply NoDup_map_filter.
  all: apply deleteMany_In in H as [H _]; by apply Hall.
Qed.

Lemma rsvpsOk_S n c : rsvpsOk n c -> rsvpsOk (S n) c.
Proof.
  intros (Hk & Hi & Hall). repeat split; try done.
  all: apply Hall in H as [? ?]; try done; lia.
Qed.

Lemma wf_empty : wf emptyStore.
Proof.
  split; [by intros ? ? ?|]. repeat split; cbn; try constructor; by destruct H.
Qed.

Ltac wf_leaf :=
  match goal with
  | H : eventsOk _, H' : rsvpsOk _ _ |- wf _ =>
      split; cbn [events rsvps nextOid];
      first
        [ assumption
        | eapply eventsOk_join; eassumption
        | eapply eventsOk_leave; eassumption
        | eapply eventsOk_delete; eassumption
        | eapply eventsOk_create; [eassumption..|reflexivity]
        | eapply rsvpsOk_save; [eassumption..|discriminate]
        | eapply rsvpsOk_create; [eassumption..|discriminate]
        | eapply rsvpsOk_deleteMany; eassumption
        | eapply rsvpsOk_S; eassumption
        | idtac ]
  end.

Lemma wf_createRsvp plan now p uid s : wf s -> wf (createRsvp plan now p uid s).2.
Proof.
  intros [He Hr]. unfold createRsvp. run_handler; wf_leaf.
Qed.

Lemma wf_cancelRsvp plan now p uid s : wf s -> wf (cancelRsvp plan now p uid s).2.
Proof.
  intros [He Hr]. unfold cancelRsvp. run_handler; wf_leaf.
Qed.

Lemma wf_getRsvpStatus plan p uid s : wf s -> wf (getRsvpStatus plan p uid s).2.
Proof.
  intros [He Hr]. unfold getRsvpStatus. run_handler; wf_leaf.
Qed.

Lemma wf_createEvent plan now errors body uid s :
  wf s -> wf (createEvent plan now errors body uid s).2.
Proof.
  intros [He Hr]. unfold createEvent. run_handler; wf_leaf.
Qed.

Lemma wf_deleteEvent plan p uid s : wf s -> wf (deleteEvent plan p uid s).2.
Proof.
  intros [He Hr]. unfold deleteEvent. run_handler; wf_leaf.
Qed.

Lemma wf_updateEvent plan errors p body uid s :
  wf s -> wf (updateEvent plan errors p body uid s).2.
Proof.
  intros [He Hr]. unfold updateEvent. run_handler; wf_leaf.
  all: cbn.
  all: match goal with
       | H : Event.findByIdAndUpdate _ _ _ = inr _ |- _ =>
           apply findByIdAndUpdate_inr in H
             as [[-> ->]|(i & e & [= <-] & He' & -> & ->)]; [done|]
       end.
  all: eapply eventsOk_update; [done..|]; cbn.
  all: match goal with H : truthyNum _ = _ |- _ => rewrite H end; cbn.
  all: congruence.
Qed.

(** Every store the application produces is well formed. *)
Lemma wf_handle plan now rq s : wf s -> wf (handle plan now rq s).2.
Proof.
  destruct rq; cbn [handle];
    auto using wf_createEvent, wf_updateEvent, wf_deleteEvent, wf_createRsvp,
      wf_cancelRsvp, wf_getRsvpStatus.
Qed.

Lemma reachable_wf s : reachable s -> wf s.
Proof. induction 1; [apply wf_empty|by apply wf_handle]. Qed.

(** ** Join and leave on well-formed stores *)

(** Among well-formed records, inserting a record for a pair that has
    neither a confirmed nor a cancelled record is accepted. *)
Lemma create_accepted now n eid uid c :
  rsvpsOk n c ->
  RSVP.findOne eid uid confirmed c = None ->
  RSVP.findOne eid uid cancelled c = None ->
  RSVP.create now n eid uid confirmed c =
    inr (RSVP.mk n eid uid confirmed now now,
         c ++ [RSVP.mk n eid uid confirmed now now]).
Proof.
  intros (Hk & Hi & Hall) Hconf Hcanc. apply create_fresh. intros x Hx.
  destruct (Hall x Hx) as [Hlt Hst]. split; [lia|].
  unfold RSVP.key. intros [= He Hu].
  destruct (RSVP.status x) eqn:E; [| |done].
  - by eapply (findOne_None _ _ _ _ x Hconf).
  - by eapply (findOne_None _ _ _ _ x Hcanc).
Qed.

(** A join without storage faults commits whenever the event exists, is not
    past, has a free slot, and the caller is not yet confirmed. *)
Lemma createRsvp_commits now eid uid s e :
  wf s -> events s !! eid = Some e -> (Event.date e <? now) = false ->
  belowCapacity e = true ->
  RSVP.findOne eid uid confirmed (rsvps s) = None ->
  exists r c' n',
    createRsvp None now (WellFormed eid) uid s =
      ((201, joinedJson eid r (Event.inc 1 e)),
       {| events := <[eid := Event.inc 1 e]> (events s);
          rsvps := c'; nextOid := n' |})
    /\ In r c' /\ RSVP.matches eid uid confirmed r = true.
Proof.
  intros [He Hr] Hev Hd Hb Hconf. unfold createRsvp. red_handler.
  destruct (RSVP.findOne eid uid cancelled (rsvps s)) as [r|] eqn:Hcanc;
    red_handler.
  - apply findOne_Some in Hcanc as (Hin & Hre & Hru & Hrs).
    rewrite (save_found now confirmed r _ Hin).
    red_handler. eexists _, _, _. split; [reflexivity|]. split.
    + apply in_map_iff. exists r. split; [|done].
      unfold RSVP.store. cbn. by rewrite Nat.eqb_refl.
    + unfold RSVP.matches. cbn. by rewrite Hre, Hru, !Nat.eqb_refl.
  - rewrite (create_accepted now _ eid uid _ Hr Hconf Hcanc). red_handler.
    eexists _, _, _. split; [reflexivity|]. split.
    + apply in_app_iff. right. by left.
    + unfold RSVP.matches. cbn. by rewrite !Nat.eqb_refl.
Qed.

(** A leave without storage faults commits whenever the caller is confirmed
    and the count of the event is above zero. *)
Lemma cancelRsvp_commits now eid uid s r e :
  wf s -> RSVP.findOne eid uid confirmed (rsvps s) = Some r ->
  events s !! eid = Some e -> aboveZero e = true ->
  exists c',
    cancelRsvp None now (WellFormed eid) uid s =
      ((200, Json.left "RSVP cancelled successfully."
               (Json.ofEvent (Event.inc (-1) e))),
       {| events := <[eid := Event.inc (-1) e]> (events s);
          rsvps := c'; nextOid := nextOid s |})
    /\ RSVP.findOne eid uid confirmed c' = None
    /\ map RSVP._id c' = map RSVP._id (rsvps s).
Proof.
  intros [He (Hk & Hi & Hall)] Hconf Hev Hz. unfold cancelRsvp. red_handler.
  apply findOne_Some in Hconf as (Hin & Hre & Hru & Hrs).
  rewrite (save_found now cancelled r _ Hin).
  red_handler. eexists. split; [reflexivity|]. split.
  - subst eid uid. cbn. by apply cancelled_not_found.
  - apply map_store_ids.
Qed.

Lemma partyStore_reachable : reachable partyStore.
Proof. apply reachable_handle, reachable_empty. Qed.

Lemma fullStore_reachable : reachable fullStore.
Proof. apply reachable_handle, partyStore_reachable. Qed.

(** The last-slot scenario: with capacity 1, user 7 joins, user 8 is turned
    away, user 7 leaves, and user 8 then gets the slot. *)
Example last_slot_scenario :
  let a := createRsvp None 20 (WellFormed 0) 7 partyStore in
  let b := createRsvp None 21 (WellFormed 0) 8 a.2 in
  let c := cancelRsvp None 22 (WellFormed 0) 7 b.2 in
  let d := createRsvp None 23 (WellFormed 0) 8 c.2 in
  a.1.1 = 201 /\ Event.attendeeCount <$> events a.2 !! 0%nat = Some 1
  /\ b.1 = eventFull /\ b.2 = a.2
  /\ c.1.1 = 200 /\ Event.attendeeCount <$> events c.2 !! 0%nat = Some 0
  /\ d.1.1 = 201 /\ Event.attendeeCount <$> events d.2 !! 0%nat = Some 1.
Proof. vm_compute. repeat split. Qed.

(** Leaving without having joined is answered with 404 and changes
    nothing. *)
Example leave_without_join :
  cancelRsvp None 20 (WellFormed 0) 7 partyStore
    = ((404, Json.message
               "RSVP not found. You are not registered for this event."),
       partyStore).
Proof. reflexivity. Qed.


(** ** Requests that overlap *)

Ltac unfold_async :=
  cbv beta iota zeta delta
    [Async.handle Async.createRsvp Async.cancelRsvp Async.getRsvpStatus
     Async.createEvent Async.updateEvent Async.deleteEvent
     Async.reserve_and_record Async.cancel_and_release
     Async.step Async.bind Async.Prog_bind Async.Prog_ret Async.serve
     Async.onError Async.keeps mbind mret].

(** A request served alone is the request of the sequential model. *)
Lemma serve_handle plan now rq s :
  Async.serve rq (Async.handle plan now rq) s = handle plan now rq s.
Proof.
  destruct rq; cbn [Async.handle handle].
  - unfold createEvent. unfold_async. run_handler; done.
  - unfold updateEvent. unfold_async. run_handler; done.
  - unfold deleteEvent. unfold_async. run_handler; done.
  - unfold createRsvp. unfold_async. run_handler; done.
  - unfold cancelRsvp. unfold_async. run_handler; done.
  - unfold getRsvpStatus. unfold_async. run_handler; done.
Qed.









Lemma eventsOk_counts c : eventsOk c -> countsOk c.
Proof. intros Hc id e He. destruct (Hc id e He) as [[? _] ?]. done. Qed.









(** A request in flight can be served to its end before any other step. *)
Lemma run_to_end allowed rq p s l log :
  Async.overlapping allowed
    {| Async.committed := s;
       Async.inFlight := l ++ [ {| Async.request := rq; Async.rest := p |} ];
       Async.answers := log |} ->
  Async.overlapping allowed
    {| Async.committed := (Async.serve rq p s).2;
       Async.inFlight := l;
       Async.answers := log ++ [(rq, (Async.serve rq p s).1)] |}.
Proof.
  revert s. induction p as [r|X call k IH]; intros s Hcfg.
  - apply (Async.overlapping_resume _ (length l)) in Hcfg.
    unfold Async.act in Hcfg. cbn [Async.inFlight] in Hcfg.
    rewrite list_lookup_middle in Hcfg by done. cbn in Hcfg.
    by rewrite delete_middle, app_nil_r in Hcfg.
  - apply (Async.overlapping_resume _ (length l)) in Hcfg.
    unfold Async.act in Hcfg. cbn [Async.inFlight] in Hcfg.
    rewrite list_lookup_middle in Hcfg by done.
    unfold Async.resume in Hcfg. cbn in Hcfg |- *.
    destruct (call (connect s)) as [[e|x] c]; cbn in Hcfg |- *.
    + by rewrite delete_middle, app_nil_r in Hcfg.
    + destruct (k x) as [r|Y call' k'] eqn:Hk; cbn in Hcfg |- *.
      * by rewrite delete_middle, app_nil_r in Hcfg.
      * rewrite insert_app_r_alt in Hcfg by done.
        rewrite Nat.sub_diag in Hcfg. cbn in Hcfg.
        specialize (IH x (endSession c)). rewrite Hk in IH. exact (IH Hcfg).
Qed.

(** The stores of requests served one after another are among those of
    requests that overlap. *)
Lemma reachable_overlapping s :
  reachable s ->
  exists log,
    Async.overlapping anyRequest
      {| Async.committed := s; Async.inFlight := []; Async.answers := log |}.
Proof.
  induction 1 as [|plan now rq s _ [log IH]]; [exists []; apply Async.overlapping_idle|].
  apply (Async.overlapping_arrive _ plan now rq) in IH; [|exact I].
  rewrite <- serve_handle. unfold Async.act in IH. cbn in IH.
  destruct (Async.handle plan now rq) as [r|X call k] eqn:Hh; cbn in IH |- *.
  - eauto.
  - eexists. apply (run_to_end _ rq (Async.Step call k) s [] log). exact IH.
Qed.



(** ** What a committed join and a committed leave store *)


(** A join whose storage calls do not fail is admitted whenever the event
    is stored, is not past and has a free slot, and the caller holds no
    confirmed record. *)
Lemma createRsvp_accepts plan now eid uid s e :
  rsvpsOk (nextOid s) (rsvps s) ->
  events s !! eid = Some e -> (Event.date e <? now) = false ->
  RSVP.findOne eid uid confirmed (rsvps s) = None ->
  (forall k, (k <= 4)%nat -> faultAt plan k = None) ->
  belowCapacity e = true ->
  createRsvp plan now (WellFormed eid) uid s =
    ((201, joinedJson eid (joinedRecord now eid uid s) (Event.inc 1 e)),
     {| events := <[eid := Event.inc 1 e]> (events s);
        rsvps :=
          match RSVP.findOne eid uid cancelled (rsvps s) with
          | Some r => map (RSVP.store (withStatus confirmed now r)) (rsvps s)
          | None => rsvps s ++ [RSVP.mk (nextOid s) eid uid confirmed now now]
          end;
        nextOid :=
          match RSVP.findOne eid uid cancelled (rsvps s) with
          | Some _ => nextOid s
          | None => S (nextOid s)
          end |}).
Proof.
  intros Hr Hev Hd Hconf Hplan Hb.
  pose proof (Hplan 0%nat ltac:(lia)) as H0.
  pose proof (Hplan 1%nat ltac:(lia)) as H1.
  pose proof (Hplan 2%nat ltac:(lia)) as H2.
  pose proof (Hplan 3%nat ltac:(lia)) as H3.
  pose proof (Hplan 4%nat ltac:(lia)) as H4.
  unfold createRsvp, joinedRecord. red_handler.
  destruct (RSVP.findOne eid uid cancelled (rsvps s)) as [r|] eqn:Hcanc;
    red_handler.
  - apply findOne_Some in Hcanc as (Hin & _).
    rewrite (save_found now confirmed r _ Hin). by red_handler.
  - rewrite (create_accepted now _ eid uid _ Hr Hconf Hcanc). by red_handler.
Qed.
(** ** The claims *)

(** A join that does not answer 201 leaves the store as it found it. *)
Lemma createRsvp_failure_store plan now eventId uid s :
  (createRsvp plan now eventId uid s).1.1 <> 201 ->
  (createRsvp plan now eventId uid s).2 = s.
Proof. unfold createRsvp. run_handler; done. Qed.

Lemma setEvents_same s : setEvents (events s) s = s.
Proof. by destruct s. Qed.

(** C1. The capacity step of join is one conditional update of the event
    record.  When [attendeeCount < capacity] it stores the record with
    [attendeeCount] raised by exactly 1, every other event untouched, and
    returns that updated record; the join is then admitted: when its last
    storage call does not fail either, it answers 201 with the raised count
    and the capacity, and the updated record is the one stored afterwards.
    Otherwise the step returns nothing and changes nothing, and join
    answers that the event is at full capacity, the store being as
    before. *)
Theorem capacity_check_and_increment plan now eid uid s e :
  events s !! eid = Some e ->
  (Event.date e <? now) = false ->
  RSVP.findOne eid uid confirmed (rsvps s) = None ->
  (forall k, (k <= 3)%nat -> faultAt plan k = None) ->
  if Event.attendeeCount e <? Event.capacity e
  then
    Event_findOneAndUpdate eid belowCapacity (Event.inc 1) s
      = inr (Some (Event.inc 1 e),
             setEvents (<[eid := Event.inc 1 e]> (events s)) s)
    /\ Event.attendeeCount (Event.inc 1 e) = Event.attendeeCount e + 1
    /\ Event.capacity (Event.inc 1 e) = Event.capacity e
    /\ (forall resp s',
          createRsvp plan now (WellFormed eid) uid s = (resp, s') ->
          resp.1 = 201 ->
          (exists m r, resp.2 = Json.joined m r (Json.ofEvent (Event.inc 1 e)))
          /\ events s' !! eid = Some (Event.inc 1 e))
    /\ (reachable s -> faultAt plan 4 = None ->
        (createRsvp plan now (WellFormed eid) uid s).1
          = (201,
             Json.joined "RSVP successful! You are registered for this event."
               {| Json.rsvpId := RSVP._id (joinedRecord now eid uid s);
                  Json.rsvpEvent := Some eid;
                  Json.status := confirmed;
                  Json.createdAt := RSVP.createdAt (joinedRecord now eid uid s) |}
               {| Json.id := Event._id e;
                  Json.title := Event.title e;
                  Json.attendeeCount := Event.attendeeCount e + 1;
                  Json.capacity := Event.capacity e;
                  Json.availableSpots :=
                    Event.capacity e - (Event.attendeeCount e + 1) |})
        /\ events (createRsvp plan now (WellFormed eid) uid s).2
           = <[eid := Event.inc 1 e]> (events s))
  else
    Event_findOneAndUpdate eid belowCapacity (Event.inc 1) s = inr (None, s)
    /\ createRsvp plan now (WellFormed eid) uid s = (eventFull, s).
Proof.
  intros Hev Hd Hconf Hplan.
  pose proof (Hplan 0%nat ltac:(lia)) as H0.
  pose proof (Hplan 1%nat ltac:(lia)) as H1.
  pose proof (Hplan 2%nat ltac:(lia)) as H2.
  pose proof (Hplan 3%nat ltac:(lia)) as H3.
  destruct (Event.attendeeCount e <? Event.capacity e) eqn:Hlt.
  - assert (belowCapacity e = true) as Hb by done.
    split; [unfold Event_findOneAndUpdate; by red_handler|].
    split; [done|]. split; [done|]. split.
    + unfold createRsvp. red_handler. repeat on_match; intros resp s' [= <- <-];
        cbn; try done.
      all: intros _; split; [by eauto|cbn; apply lookup_insert_eq].
    + intros Hs H4. apply reachable_wf in Hs as [_ Hr].
      rewrite (createRsvp_accepts plan now eid uid s e Hr Hev Hd Hconf); [|..|done].
      * cbn. split; [|done]. unfold joinedJson, joinedRecord, Json.ofEvent.
        by destruct (RSVP.findOne eid uid cancelled (rsvps s)).
      * intros k Hk. destruct (decide (k = 4%nat)) as [->|]; [done|].
        apply Hplan. lia.
  - assert (belowCapacity e = false) as Hb by done.
    split.
    + unfold Event_findOneAndUpdate. red_handler. by rewrite setEvents_same.
    + unfold createRsvp. by red_handler.
Qed.

(** User 7 asks for the one seat of the party and gets it: the answer shows
    a count of 1 and no seat left. *)
Lemma capacity_check_and_increment_witness :
  (createRsvp None 20 (WellFormed 0) 7 partyStore).1
  = (201,
     Json.joined "RSVP successful! You are registered for this event."
       {| Json.rsvpId := 1; Json.rsvpEvent := Some 0%nat;
          Json.status := confirmed; Json.createdAt := 20 |}
       {| Json.id := 0; Json.title := "Party"; Json.attendeeCount := 1;
          Json.capacity := 1; Json.availableSpots := 0 |}).
Proof.
  refine (proj1 (proj2 (proj2 (proj2 (proj2
            (capacity_check_and_increment None 20 0 7 partyStore party
               _ _ _ _)))) partyStore_reachable eq_refl)).
  - vm_compute. reflexivity.
  - reflexivity.
  - reflexivity.
  - intros k _. reflexivity.
Defined.

(** C2.  [0 <= attendeeCount <= capacity] does not hold after every
    operation.  In [overbookingSchedule] the creator lowers the capacity of
    an event for two, which has one attendee, to 1: [updateEvent] checks
    the new capacity against the count it has read, a second join is served
    before it writes, and the update, answered with 200 like the join with
    201, leaves the event with a count of 2 and a capacity of 1. *)
Theorem update_overlapping_join_overbooks :
  let cfg := Async.exec overbookingSchedule Async.idle in
  Async.inFlight cfg = []
  /\ map (fun a => a.2.1) (Async.answers cfg) = [201; 201; 201; 200]
  /\ events (Async.committed cfg) !! 0%nat = Some overbooked
  /\ Event.attendeeCount overbooked = 2
  /\ Event.capacity overbooked = 1.
Proof. vm_compute. repeat split. Qed.

Lemma filter_nil (f : RSVP.doc -> bool) c :
  (forall x, In x c -> f x = false) -> List.filter f c = [].
Proof.
  induction c as [|x c IH]; cbn; [done|]. intros H.
  rewrite (H x) by (by left). apply IH. intros y Hy. apply H. by right.
Qed.





(** C4. When the capacity step of a join has succeeded and the step that
    creates or re-activates the attendance record then throws, the join
    ends with the store exactly as it was before the request, so the
    increment is gone; a duplicate key error (code 11000) is answered with
    the already-RSVPed rejection, any other error with the generic 500. *)
Theorem registry_failure_rolls_back plan now eid uid s e err c :
  events s !! eid = Some e ->
  (Event.date e <? now) = false ->
  RSVP.findOne eid uid confirmed (rsvps s) = None ->
  (forall k, (k <= 3)%nat -> faultAt plan k = None) ->
  belowCapacity e = true ->
  createOrUpdateRsvp plan now eid uid
    (RSVP.findOne eid uid cancelled (rsvps s)) (afterIncrement eid e s) = (inl err, c) ->
  createRsvp plan now (WellFormed eid) uid s =
    (if isDuplicateKey err then alreadyRsvped
     else (500, Json.message "Error processing RSVP"),
     s).
Proof.
  intros Hev Hd Hconf Hplan Hb.
  pose proof (Hplan 0%nat ltac:(lia)) as H0.
  pose proof (Hplan 1%nat ltac:(lia)) as H1.
  pose proof (Hplan 2%nat ltac:(lia)) as H2.
  pose proof (Hplan 3%nat ltac:(lia)) as H3.
  unfold createRsvp, afterIncrement. red_handler.
  repeat on_match; intros [= <- <-]; congruence.
Qed.

(** The unique index refuses the insert of a join that raced with another
    one for the same pair: the count of the party is as before. *)
Lemma registry_failure_rolls_back_witness :
  createRsvp (Some (4%nat, DuplicateKeyError)) 20 (WellFormed 0) 7 partyStore
    = (alreadyRsvped, partyStore).
Proof.
  refine (registry_failure_rolls_back (Some (4%nat, DuplicateKeyError)) 20 0 7
            partyStore party DuplicateKeyError
            (afterIncrement 0 party partyStore) _ _ _ _ _ _).
  - vm_compute. reflexivity.
  - reflexivity.
  - reflexivity.
  - intros [|[|[|[|k]]]] Hk; [reflexivity..|lia].
  - reflexivity.
  - reflexivity.
Defined.

(** C5 fails on [driftedStore]: user 7 leaves at time 30, the release finds
    the count at 0, the handler aborts the transaction, and the record of
    user 7 is still the confirmed one. *)
Lemma release_failure_keeps_cancellation_fails :
  ~ release_failure_keeps_cancellation.
Proof.
  intros H.
  destruct (H None 30 0%nat 7%nat driftedStore (RSVP.mk 1 0 7 confirmed 20 20)
              party eq_refl eq_refl (fun _ _ => eq_refl) eq_refl)
    as (resp & s' & Hrun & _ & r' & Hin & _ & Hst).
  vm_compute in Hrun. injection Hrun as <- <-.
  cbn in Hin. destruct Hin as [<-|[]]. discriminate Hst.
Qed.

(** C5, amended.  When the release of a leave finds the count at 0, the
    handler aborts the transaction and answers 500 "Error updating event.
    Please try again.": the store is exactly as before the request, so the
    flip to cancelled is rolled back and the record is still confirmed. *)
Theorem release_failure_rolls_back plan now eid uid s r e :
  RSVP.findOne eid uid confirmed (rsvps s) = Some r ->
  events s !! eid = Some e ->
  (forall k, (k <= 3)%nat -> faultAt plan k = None) ->
  aboveZero e = false ->
  cancelRsvp plan now (WellFormed eid) uid s =
    ((500, Json.message "Error updating event. Please try again."), s).
Proof.
  intros Hconf Hev Hplan Hz.
  pose proof (Hplan 0%nat ltac:(lia)) as H0.
  pose proof (Hplan 1%nat ltac:(lia)) as H1.
  pose proof (Hplan 2%nat ltac:(lia)) as H2.
  pose proof (Hplan 3%nat ltac:(lia)) as H3.
  unfold cancelRsvp. red_handler.
  apply findOne_Some in Hconf as (Hin & _).
  rewrite (save_found now cancelled r _ Hin). by red_handler.
Qed.

Lemma release_failure_rolls_back_witness :
  cancelRsvp None 30 (WellFormed 0) 7 driftedStore =
    ((500, Json.message "Error updating event. Please try again."),
     driftedStore)
  /\ RSVP.findOne 0 7 confirmed (rsvps driftedStore)
     = Some (RSVP.mk 1 0 7 confirmed 20 20).
Proof.
  split.
  - apply (release_failure_rolls_back None 30 0 7 driftedStore
             (RSVP.mk 1 0 7 confirmed 20 20) party).
    + reflexivity.
    + reflexivity.
    + intros k _. reflexivity.
    + reflexivity.
  - reflexivity.
Defined.

Lemma inc_inc e : Event.inc (-1) (Event.inc 1 e) = e.
Proof. destruct e. unfold Event.inc. cbn. f_equal. lia. Qed.

(** C6. From a store the application can produce, in which the event is not
    past, has a free slot, and the caller is not confirmed, two joins in a
    row with no storage fault answer 201 and then "You have already RSVPed
    to this event"; the second leaves the store as the first made it, with
    the count raised by exactly 1. *)
Theorem join_twice s eid uid e now1 now2 :
  reachable s ->
  events s !! eid = Some e ->
  (Event.date e <? now1) = false ->
  (Event.date e <? now2) = false ->
  Event.attendeeCount e < Event.capacity e ->
  RSVP.findOne eid uid confirmed (rsvps s) = None ->
  let first := createRsvp None now1 (WellFormed eid) uid s in
  let second := createRsvp None now2 (WellFormed eid) uid first.2 in
  first.1.1 = 201
  /\ second.1 = alreadyRsvped
  /\ second.2 = first.2
  /\ exists e', events second.2 !! eid = Some e'
       /\ Event.attendeeCount e' = Event.attendeeCount e + 1.
Proof.
  intros Hs Hev Hd1 Hd2 Hlt Hconf first second. subst first second.
  apply reachable_wf in Hs.
  assert (belowCapacity e = true) as Hb by by apply Z.ltb_lt.
  destruct (createRsvp_commits now1 eid uid s e Hs Hev Hd1 Hb Hconf)
    as (r & c' & n' & -> & Hin & Hm).
  destruct (find_is_Some _ c' r Hin Hm) as [y Hy].
  assert (createRsvp None now2 (WellFormed eid) uid
            {| events := <[eid:=Event.inc 1 e]> (events s);
               rsvps := c'; nextOid := n' |}
          = (alreadyRsvped,
             {| events := <[eid:=Event.inc 1 e]> (events s);
                rsvps := c'; nextOid := n' |})) as Hsecond.
  { unfold createRsvp. red_handler. rewrite lookup_insert_eq. red_handler.
    change (Event.date (Event.inc 1 e)) with (Event.date e).
    rewrite Hd2. red_handler. unfold RSVP.findOne. rewrite Hy. by red_handler. }
  cbn [fst snd]. rewrite Hsecond. cbn [fst snd]. repeat split; try done.
  exists (Event.inc 1 e). split; [apply lookup_insert_eq|done].
Qed.

(** User 7 joins the party twice. *)
Lemma join_twice_witness :
  (createRsvp None 20 (WellFormed 0) 7 partyStore).1.1 = 201
  /\ (createRsvp None 21 (WellFormed 0) 7 fullStore).1 = alreadyRsvped.
Proof.
  destruct (join_twice partyStore 0 7 party 20 21) as (H1 & H2 & _).
  - apply partyStore_reachable.
  - vm_compute. reflexivity.
  - reflexivity.
  - reflexivity.
  - reflexivity.
  - reflexivity.
  - split; [exact H1|exact H2].
Defined.

(** C7. From a store the application can produce, in which the event is not
    past, has a free slot, and the caller is not confirmed, a join followed
    by a leave of the same pair, with no storage fault, answers 201 and then
    200, leaves the event record as it was before the join, and the status
    query then reports [hasRsvped: false]. *)
Theorem join_then_leave s eid uid e now1 now2 :
  reachable s ->
  events s !! eid = Some e ->
  (Event.date e <? now1) = false ->
  Event.attendeeCount e < Event.capacity e ->
  RSVP.findOne eid uid confirmed (rsvps s) = None ->
  let joined := createRsvp None now1 (WellFormed eid) uid s in
  let gone := cancelRsvp None now2 (WellFormed eid) uid joined.2 in
  let status := getRsvpStatus None (WellFormed eid) uid gone.2 in
  joined.1.1 = 201
  /\ gone.1.1 = 200
  /\ events gone.2 !! eid = Some e
  /\ status.1 = (200, Json.rsvpStatus false None).
Proof.
  intros Hs Hev Hd1 Hlt Hconf joined gone status. subst joined gone status.
  pose proof (reachable_handle None now1 (CreateRsvp (WellFormed eid) uid) s Hs)
    as Hs1. apply reachable_wf in Hs1. cbn [handle] in Hs1.
  apply reachable_wf in Hs.
  assert (belowCapacity e = true) as Hb by by apply Z.ltb_lt.
  assert (aboveZero (Event.inc 1 e) = true) as Hz.
  { destruct Hs as [He _]. destruct (He eid e Hev) as [Hr _].
    apply Z.ltb_lt. cbn. lia. }
  destruct (createRsvp_commits now1 eid uid s e Hs Hev Hd1 Hb Hconf)
    as (r & c' & n' & Hjoin & Hin & Hm).
  rewrite Hjoin in Hs1 |- *. cbn [snd fst] in Hs1 |- *.
  destruct (find_is_Some _ c' r Hin Hm) as [y Hy].
  destruct (cancelRsvp_commits now2 eid uid _ y (Event.inc 1 e) Hs1 Hy
              (lookup_insert_eq _ _ _) Hz)
    as (c'' & -> & Hnone & _).
  cbn [snd fst]. repeat split; try done.
  - rewrite inc_inc. apply lookup_insert_eq.
  - unfold getRsvpStatus. red_handler. by rewrite Hnone.
Qed.

(** User 7 joins the party and leaves it again. *)
Lemma join_then_leave_witness :
  events (cancelRsvp None 30 (WellFormed 0) 7 fullStore).2 !! 0%nat = Some party
  /\ (getRsvpStatus None (WellFormed 0) 7
        (cancelRsvp None 30 (WellFormed 0) 7 fullStore).2).1
     = (200, Json.rsvpStatus false None).
Proof.
  destruct (join_then_leave partyStore 0 7 party 20 30) as (_ & _ & H3 & H4).
  - apply partyStore_reachable.
  - vm_compute. reflexivity.
  - reflexivity.
  - reflexivity.
  - reflexivity.
  - split; [exact H3|exact H4].
Defined.

(** C8. Whatever the request and the storage faults, an event that is stored
    before and after a request has the same [attendeeCount], except that a
    join of that event may have raised it by 1, through the update guarded
    by [attendeeCount < capacity], and a leave may have lowered it by 1,
    through the update guarded by [attendeeCount > 0].  In particular an
    event update never changes it, whatever the body carries. *)
Theorem count_changes_only_by_join_leave plan now rq s id e e' :
  events s !! id = Some e ->
  events (handle plan now rq s).2 !! id = Some e' ->
  match rq with
  | CreateRsvp eventId _ =>
      e' = e
      \/ (eventId = WellFormed id /\ belowCapacity e = true
          /\ e' = Event.inc 1 e)
  | CancelRsvp eventId _ =>
      e' = e
      \/ (eventId = WellFormed id /\ aboveZero e = true
          /\ e' = Event.inc (-1) e)
  | _ => Event.attendeeCount e' = Event.attendeeCount e
  end.
Proof.
  intros Hev. destruct rq; cbn [handle].
  - unfold createEvent. run_handler; intros Hev'; try congruence.
    all: match goal with H : Event.create _ _ _ _ = inr _ |- _ =>
           pose proof H as Hc; apply Event_create_inr in H as (-> & _) end.
    all: rewrite lookup_insert in Hev'; case_decide; [|congruence].
    all: subst id; unfold Event.create in Hc; rewrite Hev in Hc.
    all: repeat case_match; congruence.
  - unfold updateEvent. run_handler; intros Hev'; try congruence.
    all: match goal with H : Event.findByIdAndUpdate _ _ _ = inr _ |- _ =>
           apply findByIdAndUpdate_inr in H
             as [[-> ->]|(i & x & [= <-] & Hx & -> & ->)] end.
    all: cbn in Hev'; try congruence.
    all: rewrite lookup_insert in Hev'; case_decide; [|congruence].
    all: subst; rewrite Hev in Hx; by simplify_eq.
  - unfold deleteEvent. run_handler; intros Hev'; try congruence.
    all: rewrite lookup_delete in Hev'; case_decide; congruence.
  - unfold createRsvp. run_handler; intros Hev'; try (left; congruence).
    all: rewrite lookup_insert in Hev'; case_decide; [|left; congruence].
    all: right; subst; by simplify_eq.
  - unfold cancelRsvp. run_handler; intros Hev'; try (left; congruence).
    all: rewrite lookup_insert in Hev'; case_decide; [|left; congruence].
    all: right; subst; by simplify_eq.
  - unfold getRsvpStatus. run_handler; intros Hev'; congruence.
Qed.

(** The owner sends an update that names [attendeeCount: 7] and raises the
    capacity to 5: the count of the full party stays 1. *)
Lemma count_changes_only_by_join_leave_witness :
  Event.attendeeCount (Event.mk 0 "Party" "Board games" 100 "Hall" 5 1 None 5 10 10)
    = Event.attendeeCount (Event.inc 1 party).
Proof.
  apply (count_changes_only_by_join_leave None 40
           (UpdateEvent [] (WellFormed 0)
              {| Body.title := None; Body.description := None;
                 Body.date := None; Body.location := None;
                 Body.capacity := Some 5; Body.imageUrl := undefined;
                 Body.attendeeCount := Some 7 |} 5)
           fullStore 0).
  - vm_compute. reflexivity.
  - vm_compute. reflexivity.
Defined.




(** C10. The status query answers 200 with [hasRsvped: true] exactly when a
    confirmed record of the pair is stored.  When the pair has no confirmed
    record -- a cancelled record, or no record at all -- the answer is the
    same [{ hasRsvped: false, rsvp: null }]; the query changes nothing. *)
Theorem status_reports_confirmed eid uid s :
  (exists b o,
     getRsvpStatus None (WellFormed eid) uid s = ((200, Json.rsvpStatus b o), s)
     /\ (b = true <->
         exists r, In r (rsvps s) /\ RSVP.event r = eid /\ RSVP.user r = uid
                   /\ RSVP.status r = confirmed))
  /\ ((forall r, In r (rsvps s) -> RSVP.event r = eid -> RSVP.user r = uid ->
         RSVP.status r <> confirmed) ->
      getRsvpStatus None (WellFormed eid) uid s
        = ((200, Json.rsvpStatus false None), s)).
Proof.
  unfold getRsvpStatus. red_handler.
  destruct (RSVP.findOne eid uid confirmed (rsvps s)) as [r|] eqn:Hf; cbn.
  - apply findOne_Some in Hf as (Hin & He & Hu & Hst). split.
    + eexists _, _. split; [reflexivity|]. split; [eauto 6|done].
    + intros H. by destruct (H r Hin He Hu).
  - split; [|done].
    eexists _, _. split; [reflexivity|]. split; [done|].
    intros (r & Hin & He & Hu & Hst). by destruct (findOne_None _ _ _ _ r Hf).
Qed.

(** * More of the handlers *)

(** ** Counting confirmed records *)

Lemma confirmedCount_cons eid r c :
  confirmedCount eid (r :: c) = Z.b2z (isConfirmedFor eid r) + confirmedCount eid c.
Proof.
  unfold confirmedCount. cbn. destruct (isConfirmedFor eid r); cbn [length Z.b2z]; lia.
Qed.

Lemma confirmedCount_nonneg eid c : 0 <= confirmedCount eid c.
Proof. unfold confirmedCount. lia. Qed.

Lemma confirmedCount_snoc eid r c :
  confirmedCount eid (c ++ [r]) = confirmedCount eid c + Z.b2z (isConfirmedFor eid r).
Proof.
  induction c as [|x c IH]; cbn [app].
  - rewrite confirmedCount_cons. unfold confirmedCount. cbn. lia.
  - rewrite !confirmedCount_cons, IH. lia.
Qed.

Lemma store_other r x : RSVP._id x <> RSVP._id r -> RSVP.store r x = x.
Proof. intros H. unfold RSVP.store. by apply Nat.eqb_neq in H as ->. Qed.

Lemma map_store_absent r c :
  ~ In (RSVP._id r) (map RSVP._id c) -> map (RSVP.store r) c = c.
Proof.
  induction c as [|x c IH]; cbn; [done|]. intros H.
  rewrite store_other, IH; [done|tauto|]. intros Heq. apply H. by left.
Qed.

(** Saving a record changes the tally by what that record contributes. *)
Lemma confirmedCount_store eid r r' c :
  List.NoDup (map RSVP._id c) -> In r c -> RSVP._id r' = RSVP._id r ->
  confirmedCount eid (map (RSVP.store r') c)
    = confirmedCount eid c - Z.b2z (isConfirmedFor eid r)
      + Z.b2z (isConfirmedFor eid (RSVP.store r' r)).
Proof.
  intros Hnd Hin Hid. induction c as [|x c IH]; [done|].
  cbn [map] in *. apply List.NoDup_cons_iff in Hnd as [Hx Hnd].
  rewrite !confirmedCount_cons. destruct Hin as [->|Hin].
  - rewrite map_store_absent by (by rewrite Hid). lia.
  - rewrite (store_other r' x), IH by first [done | intros Heq; apply Hx;
      rewrite Heq, Hid; by apply in_map]. lia.
Qed.

Lemma confirmedCount_deleteMany_same eid c :
  confirmedCount eid (RSVP.deleteMany eid c) = 0.
Proof.
  unfold confirmedCount. rewrite filter_nil; [done|].
  intros x Hx. apply deleteMany_In in Hx as [_ Hne].
  unfold isConfirmedFor. by apply Nat.eqb_neq in Hne as ->.
Qed.

Lemma confirmedCount_deleteMany_other eid id c :
  id <> eid -> confirmedCount id (RSVP.deleteMany eid c) = confirmedCount id c.
Proof.
  intros Hne. induction c as [|x c IH]; [done|].
  unfold RSVP.deleteMany in *. cbn [List.filter].
  destruct (Nat.eqb (RSVP.event x) eid) eqn:E; cbn [negb].
  - rewrite IH, confirmedCount_cons. unfold isConfirmedFor.
    apply Nat.eqb_eq in E. rewrite E.
    assert (Nat.eqb eid id = false) as -> by (apply Nat.eqb_neq; congruence).
    cbn. lia.
  - rewrite !confirmedCount_cons, IH. done.
Qed.

Lemma confirmedCount_absent eid c :
  (forall r, In r c -> RSVP.event r <> eid) -> confirmedCount eid c = 0.
Proof.
  intros H. unfold confirmedCount. rewrite filter_nil; [done|].
  intros x Hx. unfold isConfirmedFor. pose proof (H x Hx) as Hne.
  by apply Nat.eqb_neq in Hne as ->.
Qed.

(** ** No record outlives its event *)

Lemma noOrphan_step plan now rq s :
  wf s -> noOrphan s -> noOrphan (handle plan now rq s).2.
Proof.
  intros [He (Hk & Hi & Hall)] Ho. destruct rq; cbn [handle].
  - unfold createEvent. run_handler; try done.
    all: intros r Hr; cbn.
    all: match goal with H : Event.create _ _ _ _ = inr _ |- _ =>
           apply Event_create_inr in H as (-> & _) end.
    all: rewrite lookup_insert; case_decide; [done|by apply Ho].
  - unfold updateEvent. run_handler; try done.
    all: intros r Hr; cbn.
    all: match goal with H : Event.findByIdAndUpdate _ _ _ = inr _ |- _ =>
           apply findByIdAndUpdate_inr in H
             as [[-> ->]|(i & x & [= <-] & Hx & -> & ->)] end.
    all: try by apply Ho.
    all: rewrite lookup_insert; case_decide; [done|by apply Ho].
  - unfold deleteEvent. run_handler; try done.
    all: intros r Hr; cbn.
    all: apply deleteMany_In in Hr as [Hr Hne].
    all: match goal with H : events _ !! _ = Some _ |- _ =>
           destruct (He _ _ H) as [_ Hid] end.
    all: try (rewrite lookup_delete; case_decide; [congruence|]).
    all: by apply Ho.
  - unfold createRsvp. run_handler; try done.
    all: intros r Hr; cbn.
    all: rewrite lookup_insert; case_decide; [done|].
    + match goal with H : RSVP.save _ _ _ = inr _ |- _ =>
        apply save_inr in H as [_ ->] end.
      apply in_map_iff in Hr as (y & <- & Hy).
      replace (RSVP.event (RSVP.store _ y)) with (RSVP.event y)
        by (unfold RSVP.store; by destruct (Nat.eqb _ _)).
      by apply Ho.
    + match goal with H : RSVP.create _ _ _ _ _ _ = inr _ |- _ =>
        apply create_inr in H as (-> & -> & _) end.
      apply in_app_iff in Hr as [Hr|[<-|[]]]; [by apply Ho|done].
  - unfold cancelRsvp. run_handler; try done.
    all: intros r Hr; cbn.
    all: rewrite lookup_insert; case_decide; [done|].
    match goal with H : RSVP.save _ _ _ = inr _ |- _ =>
      apply save_inr in H as [_ ->] end.
    apply in_map_iff in Hr as (y & <- & Hy).
    replace (RSVP.event (RSVP.store _ y)) with (RSVP.event y)
      by (unfold RSVP.store; by destruct (Nat.eqb _ _)).
    by apply Ho.
  - unfold getRsvpStatus. run_handler; done.
Qed.

(** ** The counter against the confirmed records *)

Lemma Event_create_fresh now oid f c e c' :
  Event.create now oid f c = inr (e, c') -> c !! oid = None.
Proof.
  unfold Event.create.
  destruct (Event.new_title f), (Event.new_description f), (Event.new_date f),
    (Event.new_location f), (Event.new_capacity f); try done.
  cbn. destruct (_ && _)%bool; [|done]. by destruct (c !! oid).
Qed.

(** What saving the flipped record [withStatus st now r] does to the tally
    of an event. *)
Lemma confirmedCount_flip id st now r r' c' c :
  List.NoDup (map RSVP._id c) -> In r c ->
  RSVP.save now (withStatus st now r) c = inr (r', c') ->
  confirmedCount id c'
    = confirmedCount id c - Z.b2z (isConfirmedFor id r)
      + Z.b2z (Nat.eqb (RSVP.event r) id && bool_decide (st = confirmed)).
Proof.
  intros Hnd Hin Hsave. rewrite (save_found now st r c Hin) in Hsave.
  injection Hsave as <- <-.
  rewrite (confirmedCount_store id r (withStatus st now r) c Hnd Hin eq_refl).
  unfold RSVP.store, isConfirmedFor. cbn. by rewrite Nat.eqb_refl.
Qed.

Lemma plan_faulty plan k j : faultAt plan k = Some j -> plan <> None.
Proof. by destruct plan. Qed.

(** One request moves the surplus of an event only when storage fails, and
    then only upwards; a new event starts without surplus. *)
Lemma surplus_step plan now rq s id e' :
  wf s -> noOrphan s ->
  events (handle plan now rq s).2 !! id = Some e' ->
  match events s !! id with
  | None => surplus (handle plan now rq s).2 id e' = 0
  | Some e =>
      surplus (handle plan now rq s).2 id e' = surplus s id e
      \/ (plan <> None /\ surplus s id e <= surplus (handle plan now rq s).2 id e')
  end.
Proof.
  intros [He (Hk & Hi & Hall)] Ho. unfold surplus. destruct rq; cbn [handle].
  - unfold createEvent.
    destruct (events s !! id) as [e|] eqn:Hold; run_handler; intros Hev';
      cbn in Hev' |- *; try (simplify_eq; by left).
    all: match goal with H : Event.create _ _ _ _ = inr _ |- _ =>
           pose proof (Event_create_fresh _ _ _ _ _ _ H) as Hfresh;
           apply Event_create_inr in H as (-> & Hid & Hn & _) end.
    all: rewrite lookup_insert in Hev'; case_decide; simplify_eq; try by left.
    all: rewrite Hn; cbn; rewrite confirmedCount_absent; [done|].
    all: intros r Hr Heq; destruct (Ho r Hr) as [x Hx]; congruence.
  - unfold updateEvent.
    destruct (events s !! id) as [e|] eqn:Hold; run_handler; intros Hev';
      cbn in Hev' |- *; try (simplify_eq; by left).
    all: match goal with H : Event.findByIdAndUpdate _ _ _ = inr _ |- _ =>
           apply findByIdAndUpdate_inr in H
             as [[-> ->]|(i & x & [= <-] & Hx & -> & ->)] end.
    all: try (simplify_eq; by left).
    all: rewrite lookup_insert in Hev'; case_decide; simplify_eq; by left.
  - unfold deleteEvent.
    destruct (events s !! id) as [e|] eqn:Hold; run_handler; intros Hev';
      cbn in Hev' |- *; try (simplify_eq; by left).
    all: match goal with H : events _ !! _ = Some ?d |- context [Event._id ?d] =>
           destruct (He _ _ H) as [_ Hid]; rewrite Hid end.
    all: try (rewrite lookup_delete in Hev'; case_decide; [done|]).
    all: simplify_eq.
    all: match goal with |- context [RSVP.deleteMany ?a] =>
           destruct (decide (id = a)) as [->|Hne] end.
    all: try (left; by rewrite confirmedCount_deleteMany_other).
    all: try done.
    right. split; [by eapply plan_faulty|].
    rewrite confirmedCount_deleteMany_same.
    match goal with |- context [confirmedCount ?a ?c] =>
      pose proof (confirmedCount_nonneg a c) end. lia.
  - unfold createRsvp.
    destruct (events s !! id) as [e|] eqn:Hold; run_handler; intros Hev';
      cbn in Hev' |- *; try (simplify_eq; by left).
    all: rewrite lookup_insert in Hev'; case_decide; simplify_eq.
    all: try match goal with H : RSVP.findOne _ _ cancelled _ = Some _ |- _ =>
           apply findOne_Some in H as (Hin & Hre & _ & Hrs) end.
    all: try match goal with H : RSVP.save _ _ _ = inr _ |- _ =>
           rewrite (confirmedCount_flip id _ _ _ _ _ _ Hi Hin H);
           unfold isConfirmedFor; rewrite Hrs, Hre end.
    all: try match goal with H : RSVP.create _ _ _ _ _ _ = inr _ |- _ =>
           apply create_inr in H as (-> & -> & _);
           rewrite confirmedCount_snoc; unfold isConfirmedFor end.
    all: cbn; rewrite ?Nat.eqb_refl.
    all: try match goal with H : ?a <> ?b |- context [Nat.eqb ?a ?b] =>
           apply Nat.eqb_neq in H; rewrite H end.
    all: repeat case_bool_decide; try done; left; cbn; lia.
  - unfold cancelRsvp.
    destruct (events s !! id) as [e|] eqn:Hold; run_handler; intros Hev';
      cbn in Hev' |- *; try (simplify_eq; by left).
    all: rewrite lookup_insert in Hev'; case_decide; simplify_eq.
    all: match goal with H : RSVP.findOne _ _ confirmed _ = Some _ |- _ =>
           apply findOne_Some in H as (Hin & Hre & _ & Hrs) end.
    all: match goal with H : RSVP.save _ _ _ = inr _ |- _ =>
           rewrite (confirmedCount_flip id _ _ _ _ _ _ Hi Hin H);
           unfold isConfirmedFor; rewrite Hrs, Hre end.
    all: cbn; rewrite ?Nat.eqb_refl.
    all: try match goal with H : ?a <> ?b |- context [Nat.eqb ?a ?b] =>
           apply Nat.eqb_neq in H; rewrite H end.
    all: repeat case_bool_decide; try done; left; cbn; lia.
  - unfold getRsvpStatus.
    destruct (events s !! id) as [e|] eqn:Hold; run_handler; intros Hev';
      cbn in Hev' |- *; simplify_eq; by left.
Qed.

(** ** Counts and capacities, with overlapping requests and without *)



(** X2. A request that is served alone keeps the count of every event in
    step with its confirmed records.  In a well-formed store in which every
    record references a stored event: if no count is below the number of
    confirmed records of its event, none is after the request, whatever
    storage call fails; and if every count equals that number and no
    storage call fails, every count equals it after the request. *)
Theorem served_alone_keeps_count plan now rq s :
  wf s -> noOrphan s ->
  ((forall id e, events s !! id = Some e ->
      confirmedCount id (rsvps s) <= Event.attendeeCount e) ->
   forall id e, events (handle plan now rq s).2 !! id = Some e ->
     confirmedCount id (rsvps (handle plan now rq s).2) <= Event.attendeeCount e)
  /\ (plan = None ->
      (forall id e, events s !! id = Some e ->
         Event.attendeeCount e = confirmedCount id (rsvps s)) ->
      forall id e, events (handle plan now rq s).2 !! id = Some e ->
        Event.attendeeCount e = confirmedCount id (rsvps (handle plan now rq s).2)).
Proof.
  intros Hwf Hno. split.
  - intros Hle id e' Hev'.
    pose proof (surplus_step plan now rq s id e' Hwf Hno Hev') as Hstep.
    unfold surplus in Hstep.
    destruct (events s !! id) as [e|] eqn:Hold; [|lia].
    specialize (Hle id e Hold). destruct Hstep as [Heq|[_ Hstep]]; lia.
  - intros -> Heq id e' Hev'.
    pose proof (surplus_step None now rq s id e' Hwf Hno Hev') as Hstep.
    unfold surplus in Hstep.
    destruct (events s !! id) as [e|] eqn:Hold; [|lia].
    specialize (Heq id e Hold). destruct Hstep as [Hstep|[Hne _]]; [lia|done].
Qed.

Lemma partyStore_noOrphan : noOrphan partyStore.
Proof. intros r []. Qed.

(** User 7 joins the party: its count, 1, is the number of its confirmed
    records. *)
Lemma served_alone_keeps_count_witness :
  Event.attendeeCount (Event.inc 1 party) = confirmedCount 0 (rsvps fullStore).
Proof.
  apply (proj2 (served_alone_keeps_count None 20 (CreateRsvp (WellFormed 0) 7)
                  partyStore (reachable_wf _ partyStore_reachable)
                  partyStore_noOrphan) eq_refl).
  - intros id e Hev.
    change (events partyStore) with ({[ 0%nat := party ]} : gmap nat Event.doc)
      in Hev.
    apply lookup_singleton_Some in Hev as [<- <-]. reflexivity.
  - vm_compute. reflexivity.
Defined.

(** X3. A request that is served alone, whatever storage call fails, leaves
    no RSVP record without its event: if in a well-formed store every
    record references a stored event, so it is after the request. *)
Theorem served_alone_keeps_records_attached plan now rq s r :
  wf s -> noOrphan s ->
  In r (rsvps (handle plan now rq s).2) ->
  is_Some (events (handle plan now rq s).2 !! RSVP.event r).
Proof. intros Hwf Hno. by apply noOrphan_step. Qed.

Lemma served_alone_keeps_records_attached_witness :
  is_Some (events fullStore !! RSVP.event (RSVP.mk 1 0 7 confirmed 20 20)).
Proof.
  apply (served_alone_keeps_records_attached None 20
           (CreateRsvp (WellFormed 0) 7) partyStore).
  - apply reachable_wf, partyStore_reachable.
  - apply partyStore_noOrphan.
  - left. reflexivity.
Defined.

(** ** Leaving *)

(** X4. Without a failing storage call, and whatever the store, a leave is
    answered: 404 "RSVP not found" when the caller holds no confirmed
    record of the event; 404 "Event not found" when the event is not
    stored; 200 with the count lowered by 1 when the count is above 0; and
    500 "Error updating event" otherwise.  Unless the answer is 200 the
    store is as before, whatever storage call fails. *)
Theorem leave_outcomes now eid uid s :
  (cancelRsvp None now (WellFormed eid) uid s).1 =
    match RSVP.findOne eid uid confirmed (rsvps s) with
    | None =>
        (404, Json.message
                "RSVP not found. You are not registered for this event.")
    | Some r =>
        match events s !! eid with
        | None => (404, Json.message "Event not found")
        | Some e =>
            if 0 <? Event.attendeeCount e
            then (200,
                  Json.left "RSVP cancelled successfully."
                    {| Json.id := Event._id e;
                       Json.title := Event.title e;
                       Json.attendeeCount := Event.attendeeCount e - 1;
                       Json.capacity := Event.capacity e;
                       Json.availableSpots :=
                         Event.capacity e - (Event.attendeeCount e - 1) |})
            else (500, Json.message "Error updating event. Please try again.")
        end
    end
  /\ (forall plan p,
        (cancelRsvp plan now p uid s).1.1 <> 200 ->
        (cancelRsvp plan now p uid s).2 = s).
Proof.
  split.
  - unfold cancelRsvp. red_handler.
    destruct (RSVP.findOne eid uid confirmed (rsvps s)) as [r|] eqn:Hf;
      red_handler; [|done].
    destruct (events s !! eid) as [e|] eqn:Hev; red_handler; [|done].
    apply findOne_Some in Hf as (Hin & _).
    rewrite (save_found now cancelled r _ Hin). red_handler.
    unfold aboveZero. by destruct (0 <? Event.attendeeCount e); red_handler.
  - intros plan p. unfold cancelRsvp. run_handler; done.
Qed.

(** ** Joining *)

(** X5. In a store the application can produce and without storage faults,
    a join is answered: 404 when the event is not stored; 400 "Cannot RSVP
    to past events" when its date is before now; 400 "You have already
    RSVPed" when the caller holds a confirmed record; 201 when the count is
    below the capacity, reporting the count raised by 1 and the record of
    the pair -- a cancelled record keeps its [_id] and [createdAt]; and 400
    "Event is at full capacity" otherwise.  It is never answered with 500. *)
Theorem join_outcomes s now eid uid :
  reachable s ->
  (createRsvp None now (WellFormed eid) uid s).1 =
    match events s !! eid with
    | None => (404, Json.message "Event not found")
    | Some e =>
        if Event.date e <? now
        then (400, Json.message "Cannot RSVP to past events")
        else if bool_decide (is_Some (RSVP.findOne eid uid confirmed (rsvps s)))
        then alreadyRsvped
        else if belowCapacity e
        then (201, joinedJson eid (joinedRecord now eid uid s) (Event.inc 1 e))
        else eventFull
    end.
Proof.
  intros Hs. destruct (reachable_wf s Hs) as [He Hr].
  unfold createRsvp, joinedRecord. red_handler.
  destruct (events s !! eid) as [e|] eqn:Hev; red_handler; [|done].
  destruct (Event.date e <? now) eqn:Hd; red_handler; [done|].
  destruct (RSVP.findOne eid uid confirmed (rsvps s)) as [r|] eqn:Hconf;
    red_handler; [done|].
  rewrite bool_decide_eq_false_2 by (by intros [? ?]).
  destruct (belowCapacity e) eqn:Hb; red_handler; [|done].
  destruct (RSVP.findOne eid uid cancelled (rsvps s)) as [r|] eqn:Hcanc;
    red_handler.
  - apply findOne_Some in Hcanc as (Hin & _).
    rewrite (save_found now confirmed r _ Hin). by red_handler.
  - rewrite (create_accepted now _ eid uid _ Hr Hconf Hcanc). by red_handler.
Qed.

Lemma join_outcomes_witness :
  (createRsvp None 20 (WellFormed 0) 7 partyStore).1
    = (201, joinedJson 0 (RSVP.mk 1 0 7 confirmed 20 20) (Event.inc 1 party)).
Proof.
  rewrite (join_outcomes partyStore 20 0 7 partyStore_reachable).
  reflexivity.
Defined.

Lemma store_frame r r' c x :
  List.NoDup (map RSVP._id c) -> In r c -> RSVP._id r' = RSVP._id r ->
  RSVP.key x <> RSVP.key r ->
  In x (map (RSVP.store r') c) <-> In x c.
Proof.
  intros Hnd Hin Hid Hk. rewrite in_map_iff. split.
  - intros (y & <- & Hy). destruct (decide (RSVP._id y = RSVP._id r)) as [Heq|Hne].
    + rewrite (NoDup_map_inj RSVP._id c y r Hnd Hy Hin Heq) in Hk.
      by rewrite store_key in Hk.
    + rewrite store_other by congruence. done.
  - intros Hx. exists x. split; [|done]. apply store_other.
    rewrite Hid. intros Heq.
    by rewrite (NoDup_map_inj RSVP._id c x r Hnd Hx Hin Heq) in Hk.
Qed.

(** X6. In a store the application can produce, a join or a leave of the
    pair (event, user), whatever its outcome and the storage faults, leaves
    every other event and every record of another pair as it was. *)
Theorem join_leave_frame s plan now eid uid :
  reachable s ->
  let after_join := (createRsvp plan now (WellFormed eid) uid s).2 in
  let after_leave := (cancelRsvp plan now (WellFormed eid) uid s).2 in
  (forall id, id <> eid ->
     events after_join !! id = events s !! id
     /\ events after_leave !! id = events s !! id)
  /\ (forall x, RSVP.key x <> (eid, uid) ->
        (In x (rsvps after_join) <-> In x (rsvps s))
        /\ (In x (rsvps after_leave) <-> In x (rsvps s))).
Proof.
  intros Hs. destruct (reachable_wf s Hs) as [He (Hk & Hi & Hall)].
  cbn zeta. split.
  - intros id Hne. split.
    + unfold createRsvp. run_handler; try done; cbn; by rewrite lookup_insert_ne.
    + unfold cancelRsvp. run_handler; try done; cbn; by rewrite lookup_insert_ne.
  - intros x Hx. split.
    + unfold createRsvp. run_handler; try done; cbn.
      * match goal with H : RSVP.findOne _ _ cancelled _ = Some _ |- _ =>
          apply findOne_Some in H as (Hin & Hre & Hru & _) end.
        match goal with H : RSVP.save _ _ _ = inr _ |- _ =>
          rewrite (save_found _ _ _ _ Hin) in H; injection H as <- <- end.
        eapply store_frame; [done|exact Hin|done|].
        intros Heq. apply Hx. rewrite Heq. unfold RSVP.key. congruence.
      * match goal with H : RSVP.create _ _ _ _ _ _ = inr _ |- _ =>
          apply create_inr in H as (-> & -> & _) end.
        rewrite in_app_iff. split; [|by left].
        intros [H|[<-|[]]]; [done|]. by destruct Hx.
    + unfold cancelRsvp. run_handler; try done; cbn.
      match goal with H : RSVP.findOne _ _ confirmed _ = Some _ |- _ =>
        apply findOne_Some in H as (Hin & Hre & Hru & _) end.
      match goal with H : RSVP.save _ _ _ = inr _ |- _ =>
        rewrite (save_found _ _ _ _ Hin) in H; injection H as <- <- end.
      eapply store_frame; [done|exact Hin|done|].
        intros Heq. apply Hx. rewrite Heq. unfold RSVP.key. congruence.
Qed.

(** User 8 tries the full party: the record of user 7 is untouched. *)
Lemma join_leave_frame_witness :
  In (RSVP.mk 1 0 7 confirmed 20 20)
     (rsvps (createRsvp None 30 (WellFormed 0) 8 fullStore).2).
Proof.
  apply (proj2 (join_leave_frame fullStore None 30 0 8 fullStore_reachable)
           (RSVP.mk 1 0 7 confirmed 20 20)).
  - discriminate.
  - left. reflexivity.
Defined.

(** ** Events: creation, update, deletion *)

(** X7. Deleting an event is not atomic: when the call that deletes the
    event fails after the RSVP records were deleted, the creator is answered
    500 (400 for a [CastError]), the event is still stored as it was, with
    its [attendeeCount], and its RSVP records are gone. *)
Theorem delete_stops_halfway plan s eid e err :
  reachable s -> events s !! eid = Some e ->
  faultAt plan 0 = None -> faultAt plan 1 = None -> faultAt plan 2 = Some err ->
  deleteEvent plan (WellFormed eid) (Event.creator e) s
    = (if isCastError err
       then (400, Json.message "Invalid event ID")
       else (500, Json.message "Error deleting event"),
       setRsvps (RSVP.deleteMany eid (rsvps s)) s).
Proof.
  intros Hs Hev H0 H1 H2. destruct (reachable_wf s Hs) as [He _].
  destruct (He eid e Hev) as [_ Hid].
  unfold deleteEvent. red_handler. rewrite Nat.eqb_refl. red_handler.
  rewrite Hid. by destruct (isCastError err).
Qed.

(** The deletion of the full party stops halfway: the count stays 1 with no
    confirmed record left. *)
Lemma delete_stops_halfway_witness :
  let s' := (deleteEvent (Some (2%nat, DocumentNotFoundError)) (WellFormed 0) 5
               fullStore).2 in
  Event.attendeeCount <$> events s' !! 0%nat = Some 1
  /\ confirmedCount 0 (rsvps s') = 0.
Proof.
  cbn zeta. change 5%nat with (Event.creator (Event.inc 1 party)).
  rewrite (delete_stops_halfway (Some (2%nat, DocumentNotFoundError))
             fullStore 0 (Event.inc 1 party) DocumentNotFoundError
             fullStore_reachable);
    [|vm_compute; reflexivity|reflexivity..].
  split; vm_compute; reflexivity.
Defined.

(** X8. A user who is not the creator of the event changes nothing through
    an update or a delete request, whatever the body and the storage
    faults; without a fault the answer is 403. *)
Theorem only_creator_changes_event plan errors eid body uid s e :
  events s !! eid = Some e -> Event.creator e <> uid ->
  (updateEvent plan errors (WellFormed eid) body uid s).2 = s
  /\ (deleteEvent plan (WellFormed eid) uid s).2 = s
  /\ (faultAt plan 0 = None ->
      (updateEvent plan [] (WellFormed eid) body uid s).1.1 = 403
      /\ (deleteEvent plan (WellFormed eid) uid s).1.1 = 403).
Proof.
  intros Hev Hne. apply Nat.eqb_neq in Hne.
  split; [|split; [|intros H0; split]].
  - unfold updateEvent. run_handler; done.
  - unfold deleteEvent. run_handler; done.
  - unfold updateEvent. red_handler. rewrite Hne. by red_handler.
  - unfold deleteEvent. red_handler. rewrite Hne. by red_handler.
Qed.

Lemma only_creator_changes_event_witness :
  (deleteEvent None (WellFormed 0) 7 fullStore).2 = fullStore.
Proof.
  apply (only_creator_changes_event None [] 0 partyBody 7 fullStore
           (Event.inc 1 party)).
  - vm_compute. reflexivity.
  - discriminate.
Defined.





(** X11. A creation answered with 201 has stored one new event, under an
    [_id] no stored event had, and returns it: its [attendeeCount] is 0
    whatever the body carries, its creator is the caller, its capacity is
    the one of the body and lies between 1 and 100000, and its date is not
    before now; no other event and no RSVP record has changed. *)
Theorem create_effect plan now errors body uid s resp s' :
  createEvent plan now errors body uid s = (resp, s') -> resp.1 = 201 ->
  exists e,
    resp.2 = Json.saved "Event created successfully" (Some e)
    /\ events s !! nextOid s = None
    /\ s' = bumpOid (setEvents (<[nextOid s := e]> (events s)) s)
    /\ Event._id e = nextOid s
    /\ Event.attendeeCount e = 0
    /\ Event.creator e = uid
    /\ Body.capacity body = Some (Event.capacity e)
    /\ 1 <= Event.capacity e <= 100000
    /\ Body.date body = Some (Event.date e)
    /\ now <= Event.date e.
Proof.
  unfold createEvent. run_handler; intros [= <- <-]; cbn; try done.
  all: intros _.
  all: match goal with H : Event.create _ _ _ _ = inr _ |- _ =>
         pose proof (Event_create_fresh _ _ _ _ _ _ H) as Hfresh;
         pose proof H as Hc;
         apply Event_create_inr in H as (-> & Hid & Hn & Hcap & _) end.
  all: unfold Event.create in Hc; cbn in Hc.
  all: repeat case_match; simplify_eq; cbn in *.
  all: unfold Event.validCapacity in Hcap; apply andb_prop in Hcap as [? ?].
  all: eexists; repeat split; try done; cbn; lia.
Qed.

(** The party, as its creation returns it. *)
Lemma create_effect_witness :
  exists e,
    (createEvent None 10 [] partyBody 5 emptyStore).1.2
      = Json.saved "Event created successfully" (Some e)
    /\ Event.attendeeCount e = 0.
Proof.
  destruct (create_effect None 10 [] partyBody 5 emptyStore _ _
              (surjective_pairing _) eq_refl)
    as (e & Hresp & _ & _ & _ & Hcount & _).
  exists e. split; [exact Hresp|exact Hcount].
Defined.

(** ** Sorting *)

Section sorting.

Context {A : Type} (le : A -> A -> bool).

Lemma insertBy_In x y l : In y (insertBy le x l) <-> y = x \/ In y l.
Proof.
  induction l as [|z l IH]; cbn.
  - split; (intros [<-|H]; [by left|by right]).
  - destruct (le x z); cbn.
    + split; (intros [<-|H]; [by left|by right]).
    + rewrite IH. tauto.
Qed.

Lemma sortBy_In y l : In y (sortBy le l) <-> In y l.
Proof.
  induction l as [|x l IH]; cbn; [done|].
  rewrite insertBy_In, IH. split; (intros [<-|H]; [by left|by right]).
Qed.

Lemma insertBy_length x l : length (insertBy le x l) = S (length l).
Proof.
  induction l as [|z l IH]; cbn; [done|]. destruct (le x z); cbn; by rewrite ?IH.
Qed.

Lemma sortBy_length l : length (sortBy le l) = length l.
Proof.
  induction l as [|x l IH]; cbn; [done|]. rewrite insertBy_length.
  f_equal. exact IH.
Qed.

Hypothesis le_total : forall x y, le x y = true \/ le y x = true.
Hypothesis le_trans : forall x y z, le x y = true -> le y z = true -> le x z = true.

Lemma insertBy_sorted x l :
  StronglySorted (fun a b => le a b = true) l ->
  StronglySorted (fun a b => le a b = true) (insertBy le x l).
Proof.
  induction 1 as [|z l Hs IH Hall]; cbn; [repeat constructor|].
  destruct (le x z) eqn:E.
  - constructor; [by constructor|]. constructor; [done|].
    eapply Forall_impl; [exact Hall|]. cbn. eauto.
  - constructor; [done|]. apply Forall_forall. intros y Hy.
    apply list_elem_of_In, insertBy_In in Hy as [->|Hy].
    + destruct (le_total x z); congruence.
    + rewrite Forall_forall in Hall. by apply Hall, list_elem_of_In.
Qed.

Lemma sortBy_sorted l : StronglySorted (fun a b => le a b = true) (sortBy le l).
Proof.
  induction l as [|x l IH]; cbn; [constructor|]. by apply insertBy_sorted.
Qed.

End sorting.

(** ** The roster of an event *)

Ltac unfold_query :=
  unfold getEventAttendees, getMyRsvps, getEvent, getMyEvents, reply, lift,
    RSVP_find, Event_find, RSVP_findMine.

Lemma mapThrowing_attendees users l :
  (forall r, In r l -> is_Some (users !! RSVP.user r)) ->
  exists l', mapThrowing (attendeeOf users) l = inr l'
    /\ map View.attendeeId l' = map RSVP.user l
    /\ map View.rsvpDate l' = map RSVP.createdAt l.
Proof.
  induction l as [|r l IH]; cbn; [by exists []|]. intros H.
  destruct (H r (or_introl eq_refl)) as [u Hu].
  destruct IH as (l' & -> & Hids & Hdates); [intros; apply H; by right|].
  unfold attendeeOf, populateUser. rewrite Hu. cbn.
  eexists. split; [done|]. cbn. by rewrite Hids, Hdates.
Qed.

Lemma mapThrowing_missing users l r :
  In r l -> users !! RSVP.user r = None ->
  mapThrowing (attendeeOf users) l = inl TypeError.
Proof.
  induction l as [|x l IH]; cbn; [done|]. intros [->|Hin] Hu.
  - unfold attendeeOf, populateUser. by rewrite Hu.
  - unfold attendeeOf at 1. destruct (populateUser users (RSVP.user x)); [|done].
    by rewrite IH.
Qed.

Lemma confirmed_users_NoDup eid c :
  List.NoDup (map RSVP.key c) ->
  List.NoDup (map RSVP.user (List.filter (isConfirmedFor eid) c)).
Proof.
  induction c as [|x c IH]; cbn; [constructor|].
  rewrite List.NoDup_cons_iff. intros [Hx Hnd].
  destruct (isConfirmedFor eid x) eqn:Hc; cbn; [|by apply IH].
  apply List.NoDup_cons_iff. split; [|by apply IH].
  intros Hin. apply Hx. apply in_map_iff in Hin as (y & Hu & Hy).
  apply filter_In in Hy as [Hy Hcy]. apply in_map_iff. exists y. split; [|done].
  unfold isConfirmedFor in *. apply andb_prop in Hc as [Hc _].
  apply andb_prop in Hcy as [Hcy _]. apply Nat.eqb_eq in Hc, Hcy.
  unfold RSVP.key. congruence.
Qed.

Lemma confirmed_users_In eid u c :
  In u (map RSVP.user (List.filter (isConfirmedFor eid) c))
  <-> is_Some (RSVP.findOne eid u confirmed c).
Proof.
  rewrite in_map_iff. split.
  - intros (r & Hu & Hr). apply filter_In in Hr as [Hin Hc].
    unfold isConfirmedFor in Hc. apply andb_prop in Hc as [He Hs].
    destruct (find_is_Some (RSVP.matches eid u confirmed) c r Hin) as [y Hy].
    + unfold RSVP.matches. by rewrite He, Hu, Nat.eqb_refl, Hs.
    + unfold RSVP.findOne. by rewrite Hy.
  - intros [r Hr]. apply findOne_Some in Hr as (Hin & He & Hu & Hs).
    exists r. split; [done|]. apply filter_In. split; [done|].
    unfold isConfirmedFor. by rewrite He, Nat.eqb_refl, Hs.
Qed.

(** X12. Without a failing storage call and when the user of every record
    is stored, the creator of an event gets its roster with 200: the roster
    has one entry for each user who holds a confirmed record of the event
    and no two for the same user, so as many entries as the event has
    confirmed records, whatever the [attendeeCount] shown in its head;
    the store is unchanged. *)
Theorem roster_lists_confirmed users s eid e :
  reachable s -> events s !! eid = Some e ->
  (forall r, In r (rsvps s) -> is_Some (users !! RSVP.user r)) ->
  exists l,
    getEventAttendees None users (WellFormed eid) (Event.creator e) s
      = ((200,
          View.roster
            {| View.headId := eid; View.headTitle := Event.title e;
               View.headAttendeeCount := Event.attendeeCount e;
               View.headCapacity := Event.capacity e |} l),
         s)
    /\ Z.of_nat (length l) = confirmedCount eid (rsvps s)
    /\ List.NoDup (map View.attendeeId l)
    /\ (forall u, In u (map View.attendeeId l)
                  <-> is_Some (RSVP.findOne eid u confirmed (rsvps s))).
Proof.
  intros Hs Hev Husers.
  apply reachable_wf in Hs as [He (Hk & _)].
  destruct (He eid e Hev) as [_ Hid].
  destruct (mapThrowing_attendees users
              (List.filter (isConfirmedFor eid) (rsvps s)))
    as (l & Hl & Hids & _).
  { intros r Hr. apply filter_In in Hr as [Hr _]. by apply Husers. }
  exists l. split; [|split; [|split]].
  - unfold_query. red_handler. rewrite Nat.eqb_refl. red_handler.
    rewrite Hid. fold (isConfirmedFor eid). rewrite Hl. done.
  - rewrite <- (length_map View.attendeeId), Hids, length_map. done.
  - rewrite Hids. by apply confirmed_users_NoDup.
  - intros u. rewrite Hids. apply confirmed_users_In.
Qed.

(** The users of the scenario. *)
Lemma roster_lists_confirmed_witness :
  (getEventAttendees None
     {[ 7%nat := User.mk "Ann" "ann@example.org" 1 ]} (WellFormed 0) 5
     fullStore).1
  = (200,
     View.roster
       {| View.headId := 0; View.headTitle := "Party";
          View.headAttendeeCount := 1; View.headCapacity := 1 |}
       [ {| View.attendeeId := 7; View.attendeeName := "Ann";
            View.attendeeEmail := "ann@example.org"; View.rsvpDate := 20 |} ]).
Proof.
  destruct (roster_lists_confirmed
              {[ 7%nat := User.mk "Ann" "ann@example.org" 1 ]} fullStore 0
              (Event.inc 1 party) fullStore_reachable)
    as (l & Hrun & _).
  - vm_compute. reflexivity.
  - intros r [<-|[]]. vm_compute. eauto.
  - reflexivity.
Defined.

(** X13. The roster is for the creator only, and reading it changes
    nothing: an answer 200 means that the id is well formed and that the
    caller created the stored event; another caller is answered 403 (when
    the lookup does not fail), a malformed id 500; one attendee whose user
    is not stored makes the creator's request fail with 500. *)
Theorem roster_access plan users id uid s :
  (getEventAttendees plan users id uid s).2 = s
  /\ ((getEventAttendees plan users id uid s).1.1 = 200 ->
      exists eid e, id = WellFormed eid /\ events s !! eid = Some e
                    /\ Event.creator e = uid)
  /\ (forall eid e, id = WellFormed eid -> events s !! eid = Some e ->
        faultAt plan 0 = None ->
        (Event.creator e <> uid ->
         (getEventAttendees plan users id uid s).1
           = (403, View.message
                "Not authorized. Only the event creator can view attendees."))
        /\ (forall r, Event.creator e = uid -> In r (rsvps s) ->
              isConfirmedFor (Event._id e) r = true ->
              users !! RSVP.user r = None ->
              (getEventAttendees plan users id uid s).1
                = (500, View.message "Error fetching attendees")))
  /\ (id = Malformed ->
      (getEventAttendees plan users id uid s).1
        = (500, View.message "Error fetching attendees")).
Proof.
  split; [|split; [|split]].
  - unfold_query. run_handler; try done.
    all: by destruct (mapThrowing _ _).
  - unfold_query. run_handler; try done.
    all: match goal with H : Nat.eqb _ _ = true |- _ => apply Nat.eqb_eq in H end.
    all: eauto.
  - intros eid e -> Hev H0. split.
    + intros Hne. apply Nat.eqb_neq in Hne.
      unfold_query. red_handler. rewrite Hne. by red_handler.
    + intros r <- Hin Hc Hu.
      unfold_query. red_handler. rewrite Nat.eqb_refl. red_handler.
      destruct (faultAt plan 1); red_handler; [done|].
      rewrite (mapThrowing_missing users _ r); [done| |done].
      apply filter_In. by split.
  - intros ->. unfold_query. run_handler; done.
Qed.

(** User 7, who did not create the party, asks for its roster. *)
Lemma roster_access_witness :
  (getEventAttendees None ∅ (WellFormed 0) 7 fullStore).1
    = (403, View.message
         "Not authorized. Only the event creator can view attendees.").
Proof.
  refine (proj1 (proj1 (proj2 (proj2 (roster_access None ∅ (WellFormed 0) 7
                                        fullStore)))
                   0%nat (Event.inc 1 party) eq_refl _ eq_refl) _).
  - vm_compute. reflexivity.
  - discriminate.
Defined.

(** ** The caller's attendance list *)

Lemma In_fmap {A B} (f : A -> B) (l : list A) (b : B) :
  In b (f <$> l) <-> exists a, b = f a /\ In a l.
Proof.
  rewrite <- list_elem_of_In, list_elem_of_fmap.
  split; intros (a & ? & ?); exists a; by rewrite ?list_elem_of_In in *.
Qed.

Lemma In_omap {A B} (f : A -> option B) (l : list A) (b : B) :
  In b (omap f l) <-> exists a, In a l /\ f a = Some b.
Proof.
  rewrite <- list_elem_of_In, list_elem_of_omap.
  split; intros (a & ? & ?); exists a; by rewrite ?list_elem_of_In in *.
Qed.

Lemma StronglySorted_omap_filter {A B} (R : A -> A -> Prop) (R' : B -> B -> Prop)
    (f : A -> option B) (p : A -> bool) (l : list A) :
  (forall x y a b, R x y -> f x = Some a -> f y = Some b -> R' a b) ->
  StronglySorted R l -> StronglySorted R' (omap f (List.filter p l)).
Proof.
  intros HR. induction 1 as [|x l Hs IH Hall]; cbn; [constructor|].
  destruct (p x); cbn; [|done].
  destruct (f x) as [a|] eqn:Hfx; [|done].
  constructor; [done|]. apply Forall_forall. intros b Hb.
  apply list_elem_of_In, In_omap in Hb as (y & Hy & Hfy).
  apply filter_In in Hy as [Hy _]. rewrite Forall_forall in Hall.
  eapply HR; [|done..]. by apply Hall, list_elem_of_In.
Qed.

(** The entries [getMyRsvps] reports. *)
Lemma getMyRsvps_run users now uid s :
  getMyRsvps None users now uid s =
    ((200,
      View.myRsvps
        (omap myRsvpOf
           (List.filter (upcoming now)
              (sortBy newestFirst
                 (populateEvent users s <$>
                    List.filter
                      (fun r => (Nat.eqb (RSVP.user r) uid
                                 && bool_decide (RSVP.status r = confirmed))%bool)
                      (rsvps s)))))),
     s).
Proof. unfold_query. by red_handler. Qed.

Lemma myRsvps_In users now uid s i :
  In i (omap myRsvpOf
          (List.filter (upcoming now)
             (sortBy newestFirst
                (populateEvent users s <$>
                   List.filter
                     (fun r => (Nat.eqb (RSVP.user r) uid
                                && bool_decide (RSVP.status r = confirmed))%bool)
                     (rsvps s)))))
  <-> exists r e,
        In r (rsvps s) /\ RSVP.user r = uid /\ RSVP.status r = confirmed
        /\ events s !! RSVP.event r = Some e /\ now <= Event.date e
        /\ i = {| View.rsvpId := RSVP._id r;
                  View.myRsvpDate := RSVP.createdAt r;
                  View.event := rsvpEventOf users e |}.
Proof.
  rewrite In_omap. split.
  - intros (x & Hx & Hi). apply filter_In in Hx as [Hx Hup].
    apply sortBy_In, In_fmap in Hx as (r & -> & Hr).
    apply filter_In in Hr as [Hr Hc]. apply andb_prop in Hc as [Hu Hst].
    apply Nat.eqb_eq in Hu. apply bool_decide_eq_true in Hst.
    unfold upcoming, myRsvpOf, populateEvent in *. cbn in *.
    destruct (events s !! RSVP.event r) as [e|] eqn:Hev; [|done]. cbn in *.
    apply Z.leb_le in Hup. injection Hi as <-. exists r, e.
    repeat split; done.
  - intros (r & e & Hr & Hu & Hst & Hev & Hd & ->).
    exists (populateEvent users s r). split.
    + apply filter_In. split.
      * apply sortBy_In, In_fmap. exists r. split; [done|].
        apply filter_In. split; [done|].
        by rewrite Hu, Nat.eqb_refl, Hst.
      * unfold upcoming, populateEvent. cbn. rewrite Hev. cbn. by apply Z.leb_le.
    + unfold myRsvpOf, populateEvent. cbn. by rewrite Hev.
Qed.

(** X14. [getMyRsvps] without a storage fault answers 200 with one entry for
    each confirmed record of the caller whose event is stored and not
    before now, and no other entry; an entry carries the [_id] and the
    [createdAt] of the record and the stored event; the entries come newest
    first.  Nothing is changed. *)
Theorem my_rsvps_listing users now uid s :
  exists l,
    getMyRsvps None users now uid s = ((200, View.myRsvps l), s)
    /\ (forall i,
          In i l <->
          exists r e,
            In r (rsvps s) /\ RSVP.user r = uid /\ RSVP.status r = confirmed
            /\ events s !! RSVP.event r = Some e /\ now <= Event.date e
            /\ i = {| View.rsvpId := RSVP._id r;
                      View.myRsvpDate := RSVP.createdAt r;
                      View.event := rsvpEventOf users e |})
    /\ StronglySorted (fun a b => View.myRsvpDate b <= View.myRsvpDate a) l.
Proof.
  eexists. split; [apply getMyRsvps_run|]. split; [apply myRsvps_In|].
  eapply StronglySorted_omap_filter; [|apply sortBy_sorted].
  - intros x y a b Hle Hx Hy. unfold myRsvpOf in *.
    destruct (x.2), (y.2); try done. cbn in *. simplify_eq. cbn.
    unfold newestFirst in Hle. by apply Z.leb_le.
  - intros x y. unfold newestFirst. rewrite !Z.leb_le. lia.
  - intros x y z. unfold newestFirst. rewrite !Z.leb_le. lia.
Qed.

(** X15. After a committed join [getMyRsvps] of the caller has an entry for
    the event, showing the raised count; after the leave that follows it
    has none (the event being not before now at each listing). *)
Theorem my_rsvps_follow_join_leave users s eid uid e now1 now2 now3 :
  reachable s ->
  events s !! eid = Some e ->
  (Event.date e <? now1) = false ->
  now3 <= Event.date e ->
  Event.attendeeCount e < Event.capacity e ->
  RSVP.findOne eid uid confirmed (rsvps s) = None ->
  let s1 := (createRsvp None now1 (WellFormed eid) uid s).2 in
  let s2 := (cancelRsvp None now2 (WellFormed eid) uid s1).2 in
  (exists l i,
     (getMyRsvps None users now3 uid s1).1 = (200, View.myRsvps l)
     /\ In i l /\ View.eventId (View.event i) = eid
     /\ View.attendeeCount (View.event i) = Event.attendeeCount e + 1)
  /\ (exists l,
        (getMyRsvps None users now3 uid s2).1 = (200, View.myRsvps l)
        /\ forall i, In i l -> View.eventId (View.event i) <> eid).
Proof.
  intros Hs Hev Hd1 Hd3 Hlt Hconf s1 s2. subst s1 s2.
  pose proof (reachable_handle None now1 (CreateRsvp (WellFormed eid) uid) s Hs)
    as Hs1. cbn [handle] in Hs1.
  pose proof (reachable_handle None now2 (CancelRsvp (WellFormed eid) uid) _ Hs1)
    as Hs2. cbn [handle] in Hs2.
  apply reachable_wf in Hs1, Hs2. pose proof (reachable_wf s Hs) as Hwf.
  assert (belowCapacity e = true) as Hb by by apply Z.ltb_lt.
  assert (aboveZero (Event.inc 1 e) = true) as Hz.
  { destruct Hwf as [He _]. destruct (He eid e Hev) as [Hr _].
    apply Z.ltb_lt. cbn. lia. }
  destruct (proj1 Hwf eid e Hev) as [_ Hid].
  destruct (createRsvp_commits now1 eid uid s e Hwf Hev Hd1 Hb Hconf)
    as (r & c' & n' & Hjoin & Hin & Hm).
  rewrite Hjoin in Hs1, Hs2 |- *. cbn [snd fst] in Hs1, Hs2 |- *.
  destruct (find_is_Some _ c' r Hin Hm) as [y Hy].
  destruct (cancelRsvp_commits now2 eid uid _ y (Event.inc 1 e) Hs1 Hy
              (lookup_insert_eq _ _ _) Hz)
    as (c'' & Hleave & Hnone & _).
  rewrite Hleave in Hs2 |- *. cbn [snd fst] in Hs2 |- *.
  unfold RSVP.matches in Hm. apply andb_prop in Hm as [Hm Hst].
  apply andb_prop in Hm as [He Hu]. apply Nat.eqb_eq in He, Hu.
  apply bool_decide_eq_true in Hst. split.
  - eexists _, _. rewrite getMyRsvps_run. split; [done|]. split.
    + apply myRsvps_In. exists r, (Event.inc 1 e). cbn.
      rewrite He, lookup_insert_eq. done.
    + cbn. done.
  - eexists. rewrite getMyRsvps_run. split; [done|].
    intros i Hi. apply myRsvps_In in Hi
      as (x & e2 & Hx & Hxu & Hxs & Hxe & _ & ->). cbn in *.
    destruct (proj1 Hs2 _ _ Hxe) as [_ Hid2]. cbn. rewrite Hid2.
    intros Hxev. by apply (findOne_None eid uid confirmed c'' x Hnone Hx).
Qed.

Lemma my_rsvps_follow_join_leave_witness :
  exists l,
    (getMyRsvps None ∅ 20 7
       (cancelRsvp None 30 (WellFormed 0) 7
          (createRsvp None 20 (WellFormed 0) 7 partyStore).2).2).1
    = (200, View.myRsvps l)
    /\ forall i, In i l -> View.eventId (View.event i) <> 0%nat.
Proof.
  apply (my_rsvps_follow_join_leave ∅ partyStore 0 7 party 20 30 20
           partyStore_reachable).
  - reflexivity.
  - reflexivity.
  - cbn. lia.
  - cbn. lia.
  - reflexivity.
Defined.

(** ** One event, and the events of the caller *)

Lemma getEvent_run users s eid e user :
  wf s -> events s !! eid = Some e ->
  getEvent None users (WellFormed eid) user s =
    ((200,
      View.oneEvent (toObject users e)
        match user with
        | Some u => bool_decide (is_Some (RSVP.findOne eid u confirmed (rsvps s)))
        | None => false
        end),
     s).
Proof.
  intros [He _] Hev. destruct (He eid e Hev) as [_ Hid].
  unfold_query. red_handler. destruct user; red_handler; by rewrite ?Hid.
Qed.

Lemma getEvent_200 users s eid user o h :
  wf s ->
  (getEvent None users (WellFormed eid) user s).1 = (200, View.oneEvent o h) ->
  exists e,
    events s !! eid = Some e /\ o = toObject users e
    /\ h = match user with
           | Some u => bool_decide (is_Some (RSVP.findOne eid u confirmed (rsvps s)))
           | None => false
           end.
Proof.
  intros Hwf H. destruct (events s !! eid) as [e|] eqn:Hev.
  - rewrite (getEvent_run users s eid e user Hwf Hev) in H.
    cbn in H. exists e. by simplify_eq.
  - revert H. unfold_query. by red_handler.
Qed.



(** X17. What [getEvent] shows an authenticated caller tells whether a join
    goes through: for an event not before now, [createRsvp] answers 201
    exactly when the view has [hasRsvped] false and [isFull] false. *)
Theorem view_predicts_join users s eid u now o h :
  reachable s ->
  (getEvent None users (WellFormed eid) (Some u) s).1
    = (200, View.oneEvent o h) ->
  now <= Event.date (View.fields o) ->
  ((createRsvp None now (WellFormed eid) u s).1.1 = 201
   <-> h = false /\ View.isFull o = false).
Proof.
  intros Hs Hview Hd. pose proof (reachable_wf s Hs) as Hwf.
  destruct (getEvent_200 users s eid (Some u) o h Hwf Hview)
    as (e & Hev & -> & ->).
  cbn in Hd |- *. unfold isFull.
  assert ((Event.date e <? now) = false) as Hd' by by apply Z.ltb_ge.
  destruct (RSVP.findOne eid u confirmed (rsvps s)) as [r|] eqn:Hconf.
  - unfold createRsvp. red_handler. cbn. split; [done|].
    by intros [H _].
  - destruct (belowCapacity e) eqn:Hb.
    + destruct (createRsvp_commits now eid u s e Hwf Hev Hd' Hb Hconf)
        as (r & c' & n' & -> & _).
      cbn. unfold belowCapacity in Hb. apply Z.ltb_lt in Hb.
      split; [intros _|done]. split; [done|].
      apply Z.leb_gt. lia.
    + unfold createRsvp. run_handler. cbn. split; [done|].
      intros [_ H]. unfold belowCapacity in Hb.
      apply Z.ltb_ge in Hb. apply Z.leb_gt in H. lia.
Qed.

Lemma view_predicts_join_witness :
  (createRsvp None 20 (WellFormed 0) 7 partyStore).1.1 = 201.
Proof.
  apply (view_predicts_join ∅ partyStore 0 7 20 (toObject ∅ party) false
           partyStore_reachable).
  - reflexivity.
  - cbn. lia.
  - split; reflexivity.
Defined.

Lemma In_events (m : gmap nat Event.doc) (e : Event.doc) :
  In e (snd <$> map_to_list m) <-> exists id, m !! id = Some e.
Proof.
  rewrite In_fmap. split.
  - intros ([i x] & -> & H). exists i.
    by apply elem_of_map_to_list, list_elem_of_In.
  - intros [i H]. exists (i, e). split; [done|].
    by apply list_elem_of_In, elem_of_map_to_list.
Qed.

Lemma StronglySorted_weaken {A} (R R' : A -> A -> Prop) (l : list A) :
  (forall a b, R a b -> R' a b) -> StronglySorted R l -> StronglySorted R' l.
Proof.
  intros HR. induction 1 as [|x l Hs IH Hall]; constructor; [done|].
  eapply Forall_impl; [exact Hall|]. intros b. apply HR.
Qed.

Lemma insertBy_perm {A} (le : A -> A -> bool) (x : A) (l : list A) :
  insertBy le x l ≡ₚ x :: l.
Proof.
  induction l as [|y l IH]; cbn; [done|].
  destruct (le x y); [done|]. rewrite IH. apply perm_swap.
Qed.

Lemma sortBy_perm {A} (le : A -> A -> bool) (l : list A) : sortBy le l ≡ₚ l.
Proof.
  induction l as [|x l IH]; [done|].
  unfold sortBy in *. cbn. by rewrite insertBy_perm, IH.
Qed.

Lemma NoDup_fmap_filter {A B} (f : A -> B) (p : A -> bool) (l : list A) :
  NoDup (f <$> l) -> NoDup (f <$> List.filter p l).
Proof.
  induction l as [|x l IH]; cbn; [done|].
  rewrite NoDup_cons. intros [Hx Hnd].
  destruct (p x); cbn; [|by apply IH].
  apply NoDup_cons. split; [|by apply IH].
  intros Hin. apply Hx. apply list_elem_of_fmap in Hin as (y & Hy & Hin).
  apply list_elem_of_fmap. exists y. split; [done|].
  apply list_elem_of_In. apply list_elem_of_In, filter_In in Hin. tauto.
Qed.

Lemma NoDup_event_ids (m : gmap nat Event.doc) :
  eventsOk m -> NoDup (Event._id <$> (snd <$> map_to_list m)).
Proof.
  intros He. rewrite <- list_fmap_compose.
  rewrite (list_fmap_ext (Event._id ∘ snd) fst (map_to_list m)).
  - apply NoDup_fst_map_to_list.
  - intros i [k e] H. cbn. apply list_elem_of_lookup_2 in H.
    apply elem_of_map_to_list in H. by destruct (He k e H).
Qed.

(** X18. On a store the handlers can reach, [getMyEvents] without a storage
    fault answers 200 with the stored events whose creator is the caller,
    each one once and no other, by date with the earliest first, each with
    its populated creator and its virtuals.  Nothing is changed. *)
Theorem my_events_listing users uid s :
  reachable s ->
  exists l,
    getMyEvents None users uid s
      = ((200, View.events (toObject users <$> l)), s)
    /\ (forall e,
          In e l <-> exists id, events s !! id = Some e /\ Event.creator e = uid)
    /\ StronglySorted (fun a b => Event.date a <= Event.date b) l
    /\ NoDup (Event._id <$> l).
Proof.
  intros Hs. apply reachable_wf in Hs as [He _].
  eexists. split; [unfold_query; by red_handler|]. split; [|split].
  - intros e. rewrite sortBy_In, filter_In, In_events, Nat.eqb_eq.
    split; [intros [[id H] Hc]|intros (id & H & Hc)]; eauto.
  - eapply StronglySorted_weaken; [|apply sortBy_sorted].
    + intros a b. unfold earliestFirst. by rewrite Z.leb_le.
    + intros x y. unfold earliestFirst. rewrite !Z.leb_le. lia.
    + intros x y z. unfold earliestFirst. rewrite !Z.leb_le. lia.
  - rewrite sortBy_perm. by apply NoDup_fmap_filter, NoDup_event_ids.
Qed.

Lemma my_events_listing_witness :
  exists l,
    getMyEvents None ∅ 5 fullStore
      = ((200, View.events (toObject ∅ <$> l)), fullStore)
    /\ (forall e,
          In e l
          <-> exists id, events fullStore !! id = Some e /\ Event.creator e = 5%nat)
    /\ StronglySorted (fun a b => Event.date a <= Event.date b) l
    /\ NoDup (Event._id <$> l).
Proof. apply (my_events_listing ∅ 5 fullStore fullStore_reachable). Defined.
